(** * TRPG session bot: stage progression, context budgeting, persistence

    A shallow embedding of the parts of [scenario_manager.py] and
    [message_processor.py] that drive the stage state machine, the episode
    progress, the context budgeter, the message splitter, the completion
    and repetition detectors and the session record store, together with
    the properties established about them. *)

From Stdlib Require Import ZArith NArith List Ascii String Bool Lia DecimalString.
From stdpp Require Import base option list gmap.
Import ListNotations.

Set Warnings "-register-all".
Local Open Scope Z_scope.

(** ** Python strings

    A Python [str] is a sequence of Unicode code points; [len], slicing,
    [in] and [count] all work on code points.  Literals of the source are
    written as UTF-8 string literals and decoded by [u]. *)

Module PyStr.

Abbreviation pystr := (list N).

Definition byte_of (a : ascii) : N := N_of_ascii a.

(** UTF-8 decoding of a byte sequence (1- to 4-byte forms). *)
Fixpoint utf8_decode (bs : list N) : pystr :=
  match bs with
  | [] => []
  | b0 :: r0 =>
      if (b0 <? 128)%N then b0 :: utf8_decode r0
      else if (b0 <? 224)%N then
        match r0 with
        | b1 :: r1 => ((b0 - 192) * 64 + (b1 - 128))%N :: utf8_decode r1
        | [] => []
        end
      else if (b0 <? 240)%N then
        match r0 with
        | b1 :: b2 :: r2 =>
            ((b0 - 224) * 4096 + (b1 - 128) * 64 + (b2 - 128))%N :: utf8_decode r2
        | _ => []
        end
      else
        match r0 with
        | b1 :: b2 :: b3 :: r3 =>
            ((b0 - 240) * 262144 + (b1 - 128) * 4096 + (b2 - 128) * 64 + (b3 - 128))%N
              :: utf8_decode r3
        | _ => []
        end
  end.

Definition u (s : string) : pystr :=
  utf8_decode (List.map byte_of (list_ascii_of_string s)).

(** [len(s)] *)
Definition len (s : pystr) : Z := Z.of_nat (length s).

(** [a == b] on strings *)
Definition str_eqb (a b : pystr) : bool := bool_decide (a = b).

(** [s.startswith(p)] *)
Fixpoint startswith (p s : pystr) : bool :=
  match p, s with
  | [], _ => true
  | _ :: _, [] => false
  | a :: p', b :: s' => (a =? b)%N && startswith p' s'
  end.

(** [needle in hay] *)
Fixpoint contains (needle hay : pystr) : bool :=
  startswith needle hay ||
  match hay with
  | [] => false
  | _ :: hay' => contains needle hay'
  end.

(** Lookup in a [dict] literal with string keys. *)
Fixpoint assoc {A} (d : list (pystr * A)) (k : pystr) : option A :=
  match d with
  | [] => None
  | (k', v) :: d' => if str_eqb k' k then Some v else assoc d' k
  end.

(** A slice bound as Python normalises it: a negative index counts from the
    end, and the result is clipped to [0 .. len s]. *)
Definition slice_index (s : pystr) (i : Z) : nat :=
  Z.to_nat (Z.max 0 (Z.min (len s) (if i <? 0 then len s + i else i))).

(** [s[i:]] *)
Definition slice_from (s : pystr) (i : Z) : pystr := drop (slice_index s i) s.

(** [s[:i]] *)
Definition slice_to (s : pystr) (i : Z) : pystr := take (slice_index s i) s.

(** [l[-n:] if len(l) >= n else l] for a literal [n >= 1] *)
Definition last_n {A} (n : nat) (l : list A) : list A := drop (length l - n) l.

(** [s.count(sub)]: occurrences counted left to right without overlap.
    [skip] is the number of code points still covered by the last match. *)
Fixpoint count_from (sub : pystr) (skip : nat) (s : pystr) : Z :=
  match s with
  | [] => 0
  | _ :: s' =>
      match skip with
      | S k => count_from sub k s'
      | O => if startswith sub s then 1 + count_from sub (length sub - 1) s'
             else count_from sub 0 s'
      end
  end.

Definition count (s sub : pystr) : Z :=
  match sub with
  | [] => len s + 1
  | _ :: _ => count_from sub 0 s
  end.

Definition nl : pystr := [10%N].
Definition dquote : pystr := [34%N].

(** [sep.join(parts)] *)
Fixpoint join (sep : pystr) (parts : list pystr) : pystr :=
  match parts with
  | [] => []
  | [p] => p
  | p :: rest => p ++ sep ++ join sep rest
  end.

(** [s.split(chr(10))]: the lines of [s]; one more than it has newlines. *)
Fixpoint split_nl (s : pystr) : list pystr :=
  match s with
  | [] => [[]]
  | c :: s' =>
      if (c =? 10)%N then [] :: split_nl s'
      else match split_nl s' with
           | line :: lines => (c :: line) :: lines
           | [] => [[c]]
           end
  end.

(** Truthiness of a string. *)
Definition nonempty (s : pystr) : bool :=
  match s with
  | [] => false
  | _ :: _ => true
  end.

End PyStr.

Import PyStr.


(** ** Exceptions

    Functions that can raise return a [res]; [Raise] stands for any subclass
    of Python's [Exception], which is what a bare [except Exception] catches. *)

Inductive exn : Type :=
| AttributeError | KeyError | TypeError | ValueError
| OSError | PermissionError | RuntimeError.

Inductive res (A : Type) : Type :=
| Val (a : A)
| Raise (e : exn).
Arguments Val {A} a.
Arguments Raise {A} e.

#[global] Instance res_ret : MRet res := fun _ a => Val a.
#[global] Instance res_bind : MBind res := fun _ _ f m =>
  match m with
  | Val a => f a
  | Raise e => Raise e
  end.

(** [try: body / except Exception: handler] *)
Definition try_except {A} (body : res A) (handler : exn -> res A) : res A :=
  match body with
  | Val a => Val a
  | Raise e => handler e
  end.

(** ** JSON values

    What [json.load] produces and [json.dump] accepts.  A [dict] keeps its
    insertion order, so objects are association lists with unique keys. *)

Module Json.

Inductive json : Type :=
| JNull
| JBool (b : bool)
| JNum (z : Z)
| JStr (s : pystr)
| JArr (l : list json)
| JObj (o : list (pystr * json)).

(** Python truthiness: [None], [False], [0], the empty string, list and dict are falsy. *)
Definition truthy (v : json) : bool :=
  match v with
  | JNull => false
  | JBool b => b
  | JNum z => negb (z =? 0)
  | JStr s => negb (bool_decide (s = []))
  | JArr l => negb (bool_decide (length l = 0%nat))
  | JObj o => negb (bool_decide (length o = 0%nat))
  end.

Definition dict_get (o : list (pystr * json)) (k : pystr) : option json := assoc o k.

(** [d[k] = v]: overwrite in place, or append a new key. *)
Fixpoint dict_set (o : list (pystr * json)) (k : pystr) (v : json) : list (pystr * json) :=
  match o with
  | [] => [(k, v)]
  | (k', v') :: o' => if str_eqb k' k then (k', v) :: o' else (k', v') :: dict_set o' k v
  end.

(** [d.update(other)] *)
Definition dict_update (o other : list (pystr * json)) : list (pystr * json) :=
  fold_left (fun acc kv => dict_set acc kv.1 kv.2) other o.

(** [d.get(k, default)]; only dicts have [.get]. *)
Definition py_get (d : json) (k : pystr) (default : json) : res json :=
  match d with
  | JObj o => Val (from_option id default (dict_get o k))
  | _ => Raise AttributeError
  end.

(** [d[k]] with a string key. *)
Definition py_index (d : json) (k : pystr) : res json :=
  match d with
  | JObj o => match dict_get o k with
              | Some v => Val v
              | None => Raise KeyError
              end
  | _ => Raise TypeError
  end.

(** [d[k] = v] with a string key. *)
Definition py_setitem (d : json) (k : pystr) (v : json) : res json :=
  match d with
  | JObj o => Val (JObj (dict_set o k v))
  | _ => Raise TypeError
  end.

(** [len(x)] *)
Definition py_len (v : json) : res Z :=
  match v with
  | JStr s => Val (len s)
  | JArr l => Val (Z.of_nat (length l))
  | JObj o => Val (Z.of_nat (length o))
  | _ => Raise TypeError
  end.

(** [l.append(x)] *)
Definition py_append (l : json) (x : json) : res json :=
  match l with
  | JArr xs => Val (JArr (xs ++ [x]))
  | _ => Raise AttributeError
  end.

End Json.

Import Json.

(** ** scenario_manager.py *)

Module ScenarioStage.
Inductive t : Type := OVERVIEW | EPISODES | NPCS | HINTS | DUNGEONS | COMPLETED.

Definition value (s : t) : pystr :=
  match s with
  | OVERVIEW => u "개요"
  | EPISODES => u "에피소드"
  | NPCS => u "NPC"
  | HINTS => u "힌트"
  | DUNGEONS => u "던전"
  | COMPLETED => u "완료"
  end.
End ScenarioStage.

Module ScenarioProgress.
Inductive t : Type := NOT_STARTED | IN_PROGRESS | COMPLETED | PAUSED.

Definition value (s : t) : pystr :=
  match s with
  | NOT_STARTED => u "시작_전"
  | IN_PROGRESS => u "진행_중"
  | COMPLETED => u "완료"
  | PAUSED => u "일시정지"
  end.
End ScenarioProgress.

Module ScenarioManager.

(** The files [scenarios/scenario_<user_id>.json], as what [json.load] reads
    from them.  A missing file and a file that does not parse are both
    absent from the map: [load_scenario] answers [None] for either. *)
Abbreviation store := (gmap Z json).

(** What a call reads from its surroundings: the clock (already formatted
    by [strftime]) and whether opening the scenario file for writing works. *)
Record env : Type := { now : pystr; disk_ok : bool }.

(** The optional collaborator [npc_manager]; [None] when the import failed. *)
Record NpcManager : Type := { load_npcs : Z -> res json }.

Definition load_scenario (st : store) (user_id : Z) : json :=
  default JNull (st !! user_id).

(** Returns the store, the dict as mutated by the call ([last_updated] is
    set on the caller's object before the file is opened) and the result. *)
Definition save_scenario (e : env) (st : store) (user_id : Z) (scenario_data : json)
  : store * json * bool :=
  match py_setitem scenario_data (u "last_updated") (JStr (now e)) with
  | Val scenario_data' =>
      if disk_ok e then (<[user_id := scenario_data']> st, scenario_data', true)
      else (st, scenario_data', false)
  | Raise _ => (st, scenario_data, false)
  end.

Definition init_scenario_creation (e : env) (st : store) (user_id : Z) : store * json :=
  let scenario_data :=
    JObj [ (u "user_id", JNum user_id);
           (u "created_at", JStr (now e));
           (u "current_stage", JStr (ScenarioStage.value ScenarioStage.OVERVIEW));
           (u "progress", JStr (ScenarioProgress.value ScenarioProgress.NOT_STARTED));
           (u "scenario", JObj [
              (u "title", JStr []);
              (u "overview", JObj [
                 (u "theme", JStr []);
                 (u "setting", JStr []);
                 (u "main_conflict", JStr []);
                 (u "objective", JStr []);
                 (u "rewards", JStr []) ]);
              (u "episodes", JArr []);
              (u "npcs", JArr []);
              (u "hints", JArr []);
              (u "dungeons", JArr []);
              (u "sessions", JArr []) ]) ] in
  let '(st', scenario_data', _) := save_scenario e st user_id scenario_data in
  (st', scenario_data').

Definition get_current_stage (st : store) (user_id : Z) : res json :=
  let scenario_data := load_scenario st user_id in
  if negb (truthy scenario_data) then
    Val (JStr (ScenarioStage.value ScenarioStage.OVERVIEW))
  else
    py_get scenario_data (u "current_stage")
           (JStr (ScenarioStage.value ScenarioStage.OVERVIEW)).

Definition set_current_stage (e : env) (st : store) (user_id : Z) (stage : pystr)
  : res store :=
  let scenario_data := load_scenario st user_id in
  if truthy scenario_data then
    scenario_data' ← py_setitem scenario_data (u "current_stage") (JStr stage);
    mret (save_scenario e st user_id scenario_data').1.1
  else mret st.

Definition stage_flow : list (pystr * pystr) :=
  [ (ScenarioStage.value ScenarioStage.OVERVIEW, ScenarioStage.value ScenarioStage.EPISODES);
    (ScenarioStage.value ScenarioStage.EPISODES, ScenarioStage.value ScenarioStage.NPCS);
    (ScenarioStage.value ScenarioStage.NPCS, ScenarioStage.value ScenarioStage.HINTS);
    (ScenarioStage.value ScenarioStage.HINTS, ScenarioStage.value ScenarioStage.DUNGEONS);
    (ScenarioStage.value ScenarioStage.DUNGEONS, ScenarioStage.value ScenarioStage.COMPLETED) ].

Definition get_next_stage (current_stage : pystr) : pystr :=
  from_option id (ScenarioStage.value ScenarioStage.COMPLETED) (assoc stage_flow current_stage).

Definition is_npc_stage_complete (npc_manager : option NpcManager) (user_id : Z) : bool :=
  match npc_manager with
  | None => false
  | Some m =>
      let body :=
        existing_npcs ← load_npcs m user_id;
        if truthy existing_npcs then
          n ← py_len existing_npcs;
          mret (3 <=? n)
        else mret false in
      match try_except body (fun _ => Val false) with
      | Val b => b
      | Raise _ => false
      end
  end.

(** [len(scenario.get(key, [])) >= threshold] *)
Definition count_at_least (scenario : json) (key : pystr) (threshold : Z) : res bool :=
  items ← py_get scenario key (JArr []);
  n ← py_len items;
  mret (threshold <=? n).

Definition is_stage_complete (npc_manager : option NpcManager) (st : store)
    (user_id : Z) (stage : pystr) : res bool :=
  let scenario_data := load_scenario st user_id in
  if negb (truthy scenario_data) then mret false
  else
    scenario ← py_get scenario_data (u "scenario") (JObj []);
    if str_eqb stage (ScenarioStage.value ScenarioStage.OVERVIEW) then
      overview ← py_get scenario (u "overview") (JObj []);
      theme ← py_get overview (u "theme") JNull;
      setting ← py_get overview (u "setting") JNull;
      main_conflict ← py_get overview (u "main_conflict") JNull;
      objective ← py_get overview (u "objective") JNull;
      mret (forallb truthy [theme; setting; main_conflict; objective])
    else if str_eqb stage (ScenarioStage.value ScenarioStage.EPISODES) then
      count_at_least scenario (u "episodes") 3
    else if str_eqb stage (ScenarioStage.value ScenarioStage.NPCS) then
      match npc_manager with
      | Some _ => mret (is_npc_stage_complete npc_manager user_id)
      | None => count_at_least scenario (u "npcs") 3
      end
    else if str_eqb stage (ScenarioStage.value ScenarioStage.HINTS) then
      count_at_least scenario (u "hints") 3
    else if str_eqb stage (ScenarioStage.value ScenarioStage.DUNGEONS) then
      count_at_least scenario (u "dungeons") 1
    else mret false.

Definition update_scenario_overview (e : env) (st : store) (user_id : Z)
    (overview_data : list (pystr * json)) : res store :=
  let loaded := load_scenario st user_id in
  let '(st1, scenario_data) :=
    if truthy loaded then (st, loaded) else init_scenario_creation e st user_id in
  scenario ← py_index scenario_data (u "scenario");
  overview ← py_index scenario (u "overview");
  overview' ← match overview with
              | JObj o => Val (JObj (dict_update o overview_data))
              | _ => Raise AttributeError
              end;
  scenario' ← py_setitem scenario (u "overview") overview';
  scenario_data1 ← py_setitem scenario_data (u "scenario") scenario';
  scenario_data2 ← py_setitem scenario_data1 (u "progress")
                     (JStr (ScenarioProgress.value ScenarioProgress.IN_PROGRESS));
  mret (save_scenario e st1 user_id scenario_data2).1.1.

(** The four [add_*] methods differ only in the list they append to:
    [item["id"] = len(scenario_data["scenario"][key]) + 1], then [append]
    and [save_scenario]. *)
Definition add_item (key : pystr) (e : env) (st : store) (user_id : Z)
    (item_data : list (pystr * json)) : res store :=
  let scenario_data := load_scenario st user_id in
  if truthy scenario_data then
    scenario ← py_index scenario_data (u "scenario");
    items ← py_index scenario key;
    n ← py_len items;
    let item_data' := dict_set item_data (u "id") (JNum (n + 1)) in
    items' ← py_append items (JObj item_data');
    scenario' ← py_setitem scenario key items';
    scenario_data' ← py_setitem scenario_data (u "scenario") scenario';
    mret (save_scenario e st user_id scenario_data').1.1
  else mret st.

Definition add_episode := add_item (u "episodes").
Definition add_npc := add_item (u "npcs").
Definition add_hint := add_item (u "hints").
Definition add_dungeon := add_item (u "dungeons").

(** *** Episode progress

    The class body defines [advance_to_next_episode] twice; the later
    definition is the method an instance has, and it is the one embedded
    here.  [py_str] is Python's [str] on a JSON value, as the f-string
    [f"episode_{...}"] applies it. *)

Section Episodes.

Variable py_str : json -> pystr.

Definition episode_key (id : json) : pystr := u "episode_" ++ py_str id.

(** [value == s] for a string literal [s]. *)
Definition is_str (value : json) (s : pystr) : bool :=
  match value with
  | JStr t => str_eqb t s
  | _ => false
  end.

(** What [for i, episode in enumerate(episodes)] walks.  A truthy value
    that is not a list raises, at the loop itself or at the first [.get]
    on one of its elements. *)
Definition py_elements (v : json) : res (list json) :=
  match v with
  | JArr l => Val l
  | _ => Raise TypeError
  end.

(** The first loop: the first episode whose progress entry has the status
    in-progress gets the status completed; the result is the progress dict
    and [current_episode_index] ([-1] when the loop finds none). *)
Fixpoint mark_running_complete (episodes : list json) (i : Z) (episode_progress : json)
  : res (json * Z) :=
  match episodes with
  | [] => Val (episode_progress, -1)
  | episode :: rest =>
      id ← py_get episode (u "id") (JNum (i + 1));
      let key := episode_key id in
      progress ← py_get episode_progress key (JObj []);
      status ← py_get progress (u "status") JNull;
      if is_str status (u "진행중") then
        entry ← py_index episode_progress key;
        entry' ← py_setitem entry (u "status") (JStr (u "완료"));
        episode_progress' ← py_setitem episode_progress key entry';
        Val (episode_progress', i)
      else mark_running_complete rest (i + 1) episode_progress
  end.

Definition started_entry (e : env) : json :=
  JObj [ (u "status", JStr (u "진행중"));
         (u "started_at", JStr (now e));
         (u "round_count", JNum 0) ].

(** The result is the store and the returned bool.  Whatever is raised is
    caught by the method's [except Exception], which returns [False]; the
    changes made to the loaded record are then lost, as they are on every
    path that does not reach [save_scenario]. *)
Definition advance_to_next_episode (e : env) (st : store) (user_id : Z) : store * bool :=
  let scenario_data := load_scenario st user_id in
  let body : res (store * bool) :=
    if negb (truthy scenario_data) then Val (st, false)
    else
      scenario ← py_get scenario_data (u "scenario") (JObj []);
      episodes ← py_get scenario (u "episodes") (JArr []);
      if negb (truthy episodes) then Val (st, false)
      else
        scenario_data1 ←
          match scenario_data with
          | JObj o =>
              match dict_get o (u "episode_progress") with
              | Some _ => Val scenario_data
              | None => Val (JObj (dict_set o (u "episode_progress") (JObj [])))
              end
          | _ => Raise TypeError
          end;
        episode_progress ← py_index scenario_data1 (u "episode_progress");
        elements ← py_elements episodes;
        found ← mark_running_complete elements 0 episode_progress;
        let '(episode_progress1, current_episode_index) := found in
        if (0 <=? current_episode_index)
           && (current_episode_index + 1 <? Z.of_nat (length elements)) then
          next_episode ← match elements !! Z.to_nat (current_episode_index + 1) with
                         | Some episode => Val episode
                         | None => Raise KeyError
                         end;
          next_id ← py_get next_episode (u "id") (JNum (current_episode_index + 2));
          episode_progress2 ← py_setitem episode_progress1 (episode_key next_id)
                                (started_entry e);
          scenario_data2 ← py_setitem scenario_data1 (u "episode_progress")
                             episode_progress2;
          Val ((save_scenario e st user_id scenario_data2).1.1, true)
        else Val (st, false)
  in
  match body with
  | Val r => r
  | Raise _ => (st, false)
  end.

End Episodes.

End ScenarioManager.

(** ** message_processor.py *)

Module MessageProcessor.

Definition LLM_MAX_CONTEXT_LENGTH : Z := 8000.
Definition LLM_SAFE_CONTEXT_LENGTH : Z := 7000.

(** *** Context budgeter *)

Definition head_elision : pystr := u "...(이전 내용 생략)..." ++ nl.
Definition tail_elision : pystr := nl ++ u "...(이후 내용 생략)...".

Definition truncate_text_safely (text : pystr) (max_length : Z) (preserve_end : bool) : pystr :=
  if len text <=? max_length then text
  else if preserve_end then
    let truncated := slice_from text (- max_length) in
    head_elision ++ truncated
  else
    let truncated := slice_to text max_length in
    truncated ++ tail_elision.

Definition sum_len (parts : list pystr) : Z :=
  fold_right (fun part acc => len part + acc) 0 parts.

Record size_info : Type := {
  total_length : Z;
  max_length : Z;
  is_oversized : bool;
  parts_count : Z;
  average_part_size : Z;
  reduction_needed : Z;
  status : pystr
}.

Definition check_context_size (context_parts : list pystr) (max_total_length : Z) : size_info :=
  let total := sum_len context_parts in
  {| total_length := total;
     max_length := max_total_length;
     is_oversized := max_total_length <? total;
     parts_count := Z.of_nat (length context_parts);
     average_part_size :=
       match context_parts with
       | [] => 0
       | _ :: _ => total / Z.of_nat (length context_parts)
       end;
     reduction_needed := Z.max 0 (total - max_total_length);
     status := if max_total_length <? total then u "크기 초과" else u "정상" |}.

(** The shares [0.3], [0.25], [0.2], [0.15] and [0.1] as exact fractions.
    [int(max_total_length * ratio)] truncates towards zero; for budgets far
    below [2^53] the floating-point product truncates to the same integer
    as the exact one. *)
Definition priority_keywords : list (pystr * (Z * Z)) :=
  [ (u "플레이어 캐릭터 정보", (30, 100));
    (u "시나리오", (25, 100));
    (u "상황 요약", (20, 100));
    (u "설정", (15, 100));
    (u "세션 안내", (10, 100)) ].

Fixpoint first_priority (kws : list (pystr * (Z * Z))) (part_str : pystr) : option (Z * Z) :=
  match kws with
  | [] => None
  | (keyword, ratio) :: kws' =>
      if contains keyword part_str then Some ratio else first_priority kws' part_str
  end.

Definition allocated_length (max_total_length n_parts : Z) (part_str : pystr) : Z :=
  match first_priority priority_keywords part_str with
  | Some (num, den) => Z.quot (max_total_length * num) den
  | None => max_total_length / n_parts
  end.

(** Blocks holding conversation or summary text keep their end. *)
Definition keeps_end (part_str : pystr) : bool :=
  contains (u "대화 내용") part_str || contains (u "상황 요약") part_str.

(** The loop over [context_parts].  Besides [optimized_parts] it returns the
    shrink log: one entry [(len(part_str), len(truncated_part))] for every
    block that went through [truncate_text_safely]. *)
Fixpoint optimize_loop (max_total_length n_parts : Z) (parts : list pystr)
    (remaining_length : Z) : list pystr * list (Z * Z) :=
  match parts with
  | [] => ([], [])
  | part_str :: rest =>
      let allocated := allocated_length max_total_length n_parts part_str in
      if remaining_length <=? 0 then ([], [])
      else
        let actual_length := Z.min (Z.min allocated remaining_length) (len part_str) in
        if actual_length <? len part_str then
          let truncated_part := truncate_text_safely part_str actual_length (keeps_end part_str) in
          let '(out, log) :=
            optimize_loop max_total_length n_parts rest (remaining_length - len truncated_part) in
          (truncated_part :: out, (len part_str, len truncated_part) :: log)
        else
          let '(out, log) :=
            optimize_loop max_total_length n_parts rest (remaining_length - len part_str) in
          (part_str :: out, log)
  end.

Definition optimize_context (context_parts : list pystr) (max_total_length : Z)
  : list pystr * list (Z * Z) :=
  match context_parts with
  | [] => ([], [])
  | _ :: _ =>
      let size_info := check_context_size context_parts max_total_length in
      if negb (is_oversized size_info) then (context_parts, [])
      else optimize_loop max_total_length (Z.of_nat (length context_parts))
                         context_parts max_total_length
  end.

Definition optimize_context_parts (context_parts : list pystr) (max_total_length : Z)
  : list pystr := (optimize_context context_parts max_total_length).1.

(** Number of blocks the call truncated. *)
Definition truncated_blocks (context_parts : list pystr) (max_total_length : Z) : Z :=
  Z.of_nat (length (optimize_context context_parts max_total_length).2).

(** *** Completion detector *)

Definition completion_keywords : list (pystr * list pystr) :=
  [ (u "시나리오_생성", [u "시나리오 완성"; u "시나리오 확정"; u "이제 모험"; u "모험으로 넘어";
                          u "모험 생성"; u "다음"; u "완료"]);
    (u "모험_생성", [u "모험 완성"; u "모험 확정"; u "던전으로"; u "던전 생성"; u "파티 결성";
                      u "다음"; u "완료"]);
    (u "던전_생성", [u "던전 완성"; u "던전 확정"; u "파티로"; u "파티 결성"; u "모험 시작";
                      u "다음"; u "완료"]);
    (u "파티_생성", [u "파티 완성"; u "파티 확정"; u "모험 준비"; u "준비 시작"; u "다음"; u "완료"]);
    (u "파티_결성", [u "결성 완료"; u "파티 완성"; u "모험 준비"; u "준비 시작"; u "다음"; u "완료"]);
    (u "모험_준비", [u "준비 완료"; u "준비 끝"; u "모험 시작"; u "출발"; u "다음"; u "완료"]) ].

Definition session_descriptions : list (pystr * pystr) :=
  [ (u "시나리오_생성", u "시나리오의 주요 갈등, 핵심 NPC, 배경 설정, 목표가 충분히 정해졌는지");
    (u "모험_생성", u "모험의 시작점, 단서, 중요 장소, 예상 사건들이 충분히 계획되었는지");
    (u "던전_생성", u "던전의 유형, 구조, 주요 방들, 함정과 괴물들이 충분히 설계되었는지");
    (u "파티_생성", u "파티 구성원들과 그들의 역할, 관계가 충분히 정해졌는지");
    (u "파티_결성", u "파티 결성 과정과 팀워크가 충분히 논의되었는지");
    (u "모험_준비", u "모험을 위한 장비, 계획, 역할 분담이 충분히 준비되었는지") ].

(** The f-string handed to the judge. *)
Definition completion_prompt (session_type description conversation_text text : pystr) : pystr :=
  nl ++ u "다음 대화를 보고 현재 " ++ session_type ++ u " 세션이 완료되었는지 판단해주세요." ++ nl
  ++ nl
  ++ u "세션 완료 기준: " ++ description ++ nl
  ++ nl
  ++ u "최근 대화:" ++ nl
  ++ conversation_text ++ nl
  ++ nl
  ++ u "사용자의 마지막 메시지: " ++ text ++ nl
  ++ nl
  ++ u "위 대화를 보았을 때 " ++ session_type ++ u " 세션이 완료되었다고 판단되면 "
  ++ dquote ++ u "완료" ++ dquote ++ u "라고 답하고, " ++ nl
  ++ u "아직 더 논의가 필요하다면 " ++ dquote ++ u "진행중" ++ dquote ++ u "이라고 답해주세요." ++ nl
  ++ nl
  ++ u "답변은 " ++ dquote ++ u "완료" ++ dquote ++ u " 또는 " ++ dquote ++ u "진행중" ++ dquote
  ++ u " 중 하나만 해주세요." ++ nl.

Section CompletionDetector.

(** The generation backend [generate_answer_without_rag(query, chunks,
    session_type, character_context)]: it answers with text or raises. *)
Variable generate_answer_without_rag : pystr -> list pystr -> pystr -> pystr -> res pystr.

(** The keyword loop of the first phase. *)
Definition keyword_hit (session_type text : pystr) : bool :=
  let keywords := default [] (assoc completion_keywords session_type) in
  existsb (fun keyword => contains keyword text) keywords.

Definition extract_session_completion_info (text session_type : pystr)
    (conversation_history : list pystr) : res bool :=
  if keyword_hit session_type text then mret true
  else
    match assoc session_descriptions session_type with
    | Some description =>
        let recent_conversation := last_n 5 conversation_history in
        let conversation_text := join nl recent_conversation in
        let prompt := completion_prompt session_type description conversation_text text in
        try_except
          (completion_result ← generate_answer_without_rag prompt [] (u "기타") [];
           mret (contains (u "완료") completion_result))
          (fun _ => mret false)
    | None => mret false
    end.

End CompletionDetector.

(** *** Repetition guard *)

Definition repetitive_keywords : list pystr :=
  [ u "지하실"; u "끈적"; u "상자"; u "자물쇠"; u "쇠사슬"; u "녹슨";
    u "어둠"; u "곰팡이"; u "습기"; u "버려진"; u "폐가"; u "던전";
    u "같은 방"; u "다시"; u "또다시"; u "계속"; u "반복" ].

Section RepetitionGuard.

(** Python's Unicode tables: the case mapping behind [str.lower], the
    white space class [\s], and the decimal digits [\d] with the value
    [int] gives each. *)
Variable lower : pystr -> pystr.
Variable is_space : N -> bool.
Variable digit_value : N -> option Z.

Definition is_digit (c : N) : bool :=
  match digit_value c with Some _ => true | None => false end.

(** The longest run of digits at the start of [s]. *)
Fixpoint digit_run (s : pystr) : pystr :=
  match s with
  | c :: s' => if is_digit c then c :: digit_run s' else []
  | [] => []
  end.

(** [(\d+)] at the start of [s]: the group and the length matched. *)
Definition digits_here (s : pystr) : option (pystr * nat) :=
  match digit_run s with
  | [] => None
  | ds => Some (ds, length ds)
  end.

(** [\s*(\d+)] at the start of [s]: white space is consumed greedily, and
    given back when no digit follows. *)
Fixpoint spaces_digits (s : pystr) : option (pystr * nat) :=
  match s with
  | [] => None
  | c :: s' =>
      if is_space c then
        match spaces_digits s' with
        | Some (ds, n) => Some (ds, S n)
        | None => digits_here s
        end
      else digits_here s
  end.

(** [re.findall(r'라운드\s*(\d+)', s)]: matches are taken left to right
    and do not overlap; [skip] counts the code points of the last match
    still to be passed. *)
Fixpoint findall_rounds (skip : nat) (s : pystr) : list pystr :=
  match s with
  | [] => []
  | _ :: s' =>
      match skip with
      | S k => findall_rounds k s'
      | O =>
          if startswith (u "라운드") s then
            match spaces_digits (drop 3 s) with
            | Some (ds, n) => ds :: findall_rounds (3 + n - 1) s'
            | None => findall_rounds 0 s'
            end
          else findall_rounds 0 s'
      end
  end.

(** [int(r)] for a run of decimal digits *)
Definition int_of_digits (r : pystr) : Z :=
  fold_left (fun acc c => 10 * acc + default 0 (digit_value c)) r 0.

(** [max(...)] of a non-empty sequence *)
Definition max_of (x : Z) (xs : list Z) : Z := fold_left Z.max xs x.

(** The text of the last ten turns, lower-cased. *)
Definition recent_text_of (conversation_history : list pystr) : pystr :=
  let recent_conversations := last_n 10 conversation_history in
  lower (join nl recent_conversations).

(** The round numbers [int(r) for r in round_matches]. *)
Definition round_numbers (recent_text : pystr) : list Z :=
  map int_of_digits (findall_rounds 0 recent_text).

(** The body of the [try]; on strings nothing in it raises, so the
    handler that returns [False] is never entered. *)
Definition check_repetitive_situation_in_context (scenario_context : pystr)
    (conversation_history : list pystr) : bool :=
  let recent_text := recent_text_of conversation_history in
  let keyword_count :=
    List.filter (fun kv => 0 <? kv.2)
                (map (fun keyword => (keyword, count recent_text keyword)) repetitive_keywords) in
  let high_frequency_keywords :=
    map fst (List.filter (fun kv => 3 <=? kv.2) keyword_count) in
  match high_frequency_keywords with
  | _ :: _ => true
  | [] =>
      if contains (u "에피소드") scenario_context then
        if contains (u "라운드") recent_text then
          match round_numbers recent_text with
          | r :: rs =>
              let latest_round := max_of r rs in
              if 5 <=? latest_round then true else false
          | [] => false
          end
        else false
      else false
  end.

End RepetitionGuard.

(** *** Session record store *)

(** What a file under [sessions/] holds: the complete serialisation of a
    value, or an unfinished write that [json.load] rejects. *)
Inductive fcontent : Type :=
| Text (data : json)
| Partial.

(** [sessions/user_<user_id>/<name>] as the pair of user id and file name. *)
Abbreviation disk := (gmap (Z * pystr) fcontent).

(** The places where [save_session_data] asks the operating system for
    something, and what can go wrong in one run: nothing, one of the calls
    raises, the user directory is not writable, or the process is stopped
    right before a call. *)
Inductive site : Type :=
| MakeBaseDir | MakeUserDir | WriteTemp | RemoveOld | RenameTemp | ReadBack | CleanupTemp.

Inductive fault : Type :=
| NoFault
| Raises (s : site) (e : exn)
| NotWritable
| KilledBefore (s : site).

Inductive ioresult (A : Type) : Type :=
| Done (a : A)
| Exn (e : exn)
| Dead.
Arguments Done {A} a.
Arguments Exn {A} e.
Arguments Dead {A}.

Definition io (A : Type) : Type := fault -> disk -> disk * ioresult A.

#[global] Instance io_ret : MRet io := fun _ a _ d => (d, Done a).
#[global] Instance io_bind : MBind io := fun _ _ k m f d =>
  match m f d with
  | (d', Done a) => k a f d'
  | (d', Exn e) => (d', Exn e)
  | (d', Dead) => (d', Dead)
  end.

(** [try: body / except Exception: handler]; a stopped process runs no handler. *)
Definition io_try {A : Type} (body : io A) (handler : exn -> io A) : io A := fun f d =>
  match body f d with
  | (d', Exn e) => handler e f d'
  | r => r
  end.

Definition site_eqb (a b : site) : bool :=
  match a, b with
  | MakeBaseDir, MakeBaseDir | MakeUserDir, MakeUserDir | WriteTemp, WriteTemp
  | RemoveOld, RemoveOld | RenameTemp, RenameTemp | ReadBack, ReadBack
  | CleanupTemp, CleanupTemp => true
  | _, _ => false
  end.

(** A call at site [s]: the fault of the run decides whether it happens. *)
Definition at_site {A : Type} (s : site) (on_raise : disk -> disk) (act : disk -> disk * ioresult A)
  : io A := fun f d =>
  match f with
  | KilledBefore s' => if site_eqb s s' then (d, Dead) else act d
  | Raises s' e => if site_eqb s s' then (on_raise d, Exn e) else act d
  | _ => act d
  end.

(** [os.makedirs(dir, exist_ok=True)] *)
Definition makedirs (s : site) : io unit :=
  at_site s id (fun d => (d, Done tt)).

(** [os.access(user_dir, os.W_OK)] *)
Definition access_w : io bool := fun f d =>
  match f with
  | NotWritable => (d, Done false)
  | _ => (d, Done true)
  end.

(** [os.path.exists(path)] *)
Definition path_exists (path : Z * pystr) : io bool := fun _ d =>
  (d, Done (bool_decide (is_Some (d !! path)))).

(** [with open(path, 'w') as f: json.dump(data, f); f.flush(); os.fsync(...)];
    a write that raises leaves an unfinished file behind. *)
Definition write_json (s : site) (path : Z * pystr) (data : json) : io unit :=
  at_site s (fun d => <[path := Partial]> d) (fun d => (<[path := Text data]> d, Done tt)).

(** [os.remove(path)] *)
Definition remove (s : site) (path : Z * pystr) : io unit :=
  at_site s id (fun d =>
    match d !! path with
    | Some _ => (delete path d, Done tt)
    | None => (d, Exn OSError)
    end).

(** [os.rename(src, dst)] *)
Definition rename (s : site) (src dst : Z * pystr) : io unit :=
  at_site s id (fun d =>
    match d !! src with
    | Some c => (<[dst := c]> (delete src d), Done tt)
    | None => (d, Exn OSError)
    end).

(** [with open(path, 'r') as f: json.load(f)] *)
Definition read_json (s : site) (path : Z * pystr) : io json :=
  at_site s id (fun d =>
    match d !! path with
    | Some (Text data) => (d, Done data)
    | Some Partial => (d, Exn ValueError)
    | None => (d, Exn OSError)
    end).

Definition filename_map : list (pystr * pystr) :=
  [ (u "시나리오_생성", u "scenario.json");
    (u "모험_생성", u "adventure.json");
    (u "던전_생성", u "dungeon.json");
    (u "파티_생성", u "party.json");
    (u "파티_결성", u "party.json");
    (u "모험_준비", u "preparation.json") ].

(** [session_type.replace('_', '-')] *)
Definition replace_underscore (s : pystr) : pystr :=
  map (fun c => if (c =? 95)%N then 45%N else c) s.

Definition session_filename (session_type : pystr) : pystr :=
  default (replace_underscore session_type ++ u ".json") (assoc filename_map session_type).

Definition pass : io unit := mret tt.
Definition ret (b : bool) : io bool := mret b.

Definition save_session_data (user_id : Z) (session_type : pystr) (data : json) : io bool :=
  io_try
    (if (user_id =? 0) || bool_decide (session_type = []) || negb (truthy data) then ret false
     else
       dirs_ok ← io_try (_ ← makedirs MakeBaseDir; _ ← makedirs MakeUserDir; ret true)
                        (fun _ => ret false);
       if negb dirs_ok then ret false
       else
         writable ← access_w;
         if negb writable then ret false
         else
           let filename := session_filename session_type in
           let filepath := (user_id, filename) in
           let temp_filepath := (user_id, filename ++ u ".tmp") in
           io_try
             (_ ← write_json WriteTemp temp_filepath data;
              temp_exists ← path_exists temp_filepath;
              if temp_exists : bool then
                old_exists ← path_exists filepath;
                _ ← (if old_exists : bool then remove RemoveOld filepath else pass);
                _ ← rename RenameTemp temp_filepath filepath;
                final_exists ← path_exists filepath;
                if final_exists : bool then
                  io_try (_ ← read_json ReadBack filepath; ret true) (fun _ => ret false)
                else ret false
              else ret false)
             (fun _ =>
                temp_left ← path_exists temp_filepath;
                _ ← (if temp_left : bool then
                       io_try (remove CleanupTemp temp_filepath) (fun _ => pass)
                     else pass);
                ret false))
    (fun _ => ret false).

(** Reading a session file back, as [load_session_files_context] does:
    nothing when the file is missing or does not parse. *)
Definition load_session_file (d : disk) (user_id : Z) (session_type : pystr) : option json :=
  match d !! (user_id, session_filename session_type) with
  | Some (Text data) => Some data
  | _ => None
  end.

(** *** Message splitting *)

Definition TELEGRAM_MAX_MESSAGE_LENGTH : Z := 4096.
Definition SAFE_MESSAGE_LENGTH : Z := 4000.

(** The inner [while len(line) > max_length] loop: the pieces cut off and
    what is left of the line.  Every round costs one unit of [fuel];
    [None] means the loop was still running when the fuel was spent. *)
Fixpoint force_split (fuel : nat) (max_length : Z) (line : pystr)
  : option (list pystr * pystr) :=
  if len line <=? max_length then Some ([], line)
  else
    match fuel with
    | O => None
    | S fuel' =>
        match force_split fuel' max_length (slice_from line max_length) with
        | Some (pieces, rest) => Some (slice_to line max_length :: pieces, rest)
        | None => None
        end
    end.

(** The [for line in lines] loop with its two variables. *)
Fixpoint split_loop (fuel : nat) (max_length : Z) (lines : list pystr)
    (chunks : list pystr) (current_chunk : pystr) : option (list pystr * pystr) :=
  match lines with
  | [] => Some (chunks, current_chunk)
  | line :: rest =>
      if len current_chunk + len line + 1 <=? max_length then
        if nonempty current_chunk then
          split_loop fuel max_length rest chunks (current_chunk ++ nl ++ line)
        else
          split_loop fuel max_length rest chunks line
      else
        if nonempty current_chunk then
          split_loop fuel max_length rest (chunks ++ [current_chunk]) line
        else
          match force_split fuel max_length line with
          | Some (pieces, line') => split_loop fuel max_length rest (chunks ++ pieces) line'
          | None => None
          end
  end.

Definition split_long_message_fuel (fuel : nat) (text : pystr) (max_length : Z)
  : option (list pystr) :=
  if len text <=? max_length then Some [text]
  else
    match split_loop fuel max_length (split_nl text) [] [] with
    | Some (chunks, current_chunk) =>
        Some (if nonempty current_chunk then chunks ++ [current_chunk] else chunks)
    | None => None
    end.

(** One unit of fuel per code point is enough whenever [max_length >= 1]. *)
Definition split_long_message (text : pystr) (max_length : Z) : option (list pystr) :=
  split_long_message_fuel (length text) text max_length.

(** *** Session flow *)

Definition session_flow : list (pystr * pystr) :=
  [ (u "캐릭터_생성", u "시나리오_생성");
    (u "시나리오_생성", u "모험_생성");
    (u "모험_생성", u "던전_생성");
    (u "던전_생성", u "파티_생성");
    (u "파티_생성", u "모험_준비");
    (u "파티_결성", u "모험_준비");
    (u "모험_준비", u "모험_진행") ].

Definition get_next_session (current_session : pystr) : pystr :=
  default (u "모험_진행") (assoc session_flow current_session).

End MessageProcessor.

(** * Vocabulary of the statements

    Observations on stored records, the statements of the specification
    that are compared with the code, and the concrete data used in
    examples. *)

Module StageSpec.
Import ScenarioManager.
Import ScenarioStage.

(** The transition table as the specification lists it:
    Overview, Episodes, NPCs, Hints, Dungeons, Completed, and Completed
    again. *)
Definition spec_successor (s : ScenarioStage.t) : ScenarioStage.t :=
  match s with
  | OVERVIEW => EPISODES
  | EPISODES => NPCS
  | NPCS => HINTS
  | HINTS => DUNGEONS
  | DUNGEONS => COMPLETED
  | COMPLETED => COMPLETED
  end.

(** [scenario_data["scenario"]] of the stored record, when it is a dict. *)
Definition stored_scenario (st : store) (user_id : Z) : list (pystr * json) :=
  match load_scenario st user_id with
  | JObj o => match dict_get o (u "scenario") with
              | Some (JObj sc) => sc
              | _ => []
              end
  | _ => []
  end.

(** The list stored under [scenario[key]]. *)
Definition stored_items (st : store) (user_id : Z) (key : pystr) : list json :=
  match dict_get (stored_scenario st user_id) key with
  | Some (JArr l) => l
  | _ => []
  end.

(** The dict stored under [scenario["overview"]]. *)
Definition stored_overview (st : store) (user_id : Z) : list (pystr * json) :=
  match dict_get (stored_scenario st user_id) (u "overview") with
  | Some (JObj ov) => ov
  | _ => []
  end.

(** The stored record of [user_id] is a non-empty dict whose
    [scenario[key]] is the list [items]. *)
Definition has_items (st : store) (user_id : Z) (key : pystr) (items : list json) : Prop :=
  exists o sc,
    st !! user_id = Some (JObj o) /\ o <> []
    /\ dict_get o (u "scenario") = Some (JObj sc)
    /\ dict_get sc key = Some (JArr items).

(** What [add_item] appends: the payload with its [id] set. *)
Definition with_id (item_data : list (pystr * json)) (n : Z) : json :=
  JObj (dict_set item_data (u "id") (JNum n)).

Definition item_id (item : json) : option json :=
  match item with
  | JObj o => dict_get o (u "id")
  | _ => None
  end.

Definition nonempty_string (v : option json) : bool :=
  match v with
  | Some (JStr (_ :: _)) => true
  | _ => false
  end.

(** The title is written to [scenario["title"]] by [init_scenario_creation]
    and read from [overview["title"]] elsewhere; either place counts. *)
Definition title_nonempty (st : store) (user_id : Z) : bool :=
  nonempty_string (dict_get (stored_scenario st user_id) (u "title"))
  || nonempty_string (dict_get (stored_overview st user_id) (u "title")).

Definition required_overview_fields : list pystr :=
  [u "theme"; u "setting"; u "main_conflict"; u "objective"].

(** C2 as the specification words it: completion of the NPC stage implies
    both three local NPC records and the readiness of the NPC subsystem. *)
Definition npc_stage_needs_both (m : NpcManager) (st : store) (user_id : Z) : Prop :=
  is_stage_complete (Some m) st user_id (value NPCS) = Val true ->
  3 <= Z.of_nat (length (stored_items st user_id (u "npcs")))
  /\ is_npc_stage_complete (Some m) user_id = true.

(** C3 as the specification words it: a second initialisation returns the
    existing record and leaves the store alone. *)
Definition init_keeps_existing_record (e : env) (st : store) (user_id : Z) : Prop :=
  forall record : json,
    st !! user_id = Some record ->
    init_scenario_creation e st user_id = (st, record).

(** C4 as the specification words it: Overview is complete exactly when
    the title and the four other fields are non-empty strings. *)
Definition overview_needs_five_fields (m : option NpcManager) (st : store) (user_id : Z) : Prop :=
  is_stage_complete m st user_id (value OVERVIEW) = Val true <->
  (title_nonempty st user_id = true
   /\ forall k, In k required_overview_fields ->
                nonempty_string (dict_get (stored_overview st user_id) k) = true).

(** Example data. *)
Definition clock0 : env := {| now := u "2025-01-01 09:00:00"; disk_ok := true |}.

Definition store_of (r : res store) : store :=
  match r with
  | Val st => st
  | Raise _ => ∅
  end.

(** The overview of the specification's end-to-end scenario. *)
Definition mystery_overview : list (pystr * json) :=
  [ (u "theme", JStr (u "미스터리"));
    (u "setting", JStr (u "마을"));
    (u "main_conflict", JStr (u "실종사건"));
    (u "objective", JStr (u "사건해결")) ].

(** A user whose overview is filled in and whose title is still empty. *)
Definition store_overview_done : store :=
  store_of (update_scenario_overview clock0 ∅ 99999 mystery_overview).

(** The same user, moved on to the Episodes stage with one episode stored. *)
Definition store_in_episodes : store :=
  store_of (st ← set_current_stage clock0 store_overview_done 99999 (value EPISODES);
            add_episode clock0 st 99999 [(u "title", JStr (u "사라진 아이들"))]).

(** An NPC subsystem that holds three NPCs for every user. *)
Definition three_npcs : json :=
  JArr [ JObj [(u "name", JStr (u "촌장"))];
         JObj [(u "name", JStr (u "대장장이"))];
         JObj [(u "name", JStr (u "약초꾼"))] ].

Definition ready_manager : NpcManager := {| load_npcs := fun _ => Val three_npcs |}.

End StageSpec.

Module BudgetSpec.
Import MessageProcessor.

(** Both elision markers are 17 code points long. *)
Definition elision_overhead : Z := len head_elision.

(** C5 as the specification words it. *)
Definition budget_bound_as_stated (context_parts : list pystr) (max_total_length : Z) : Prop :=
  max_total_length < sum_len context_parts ->
  sum_len (optimize_context_parts context_parts max_total_length)
  <= max_total_length + elision_overhead * truncated_blocks context_parts max_total_length.

(** No block that keeps its end is given an allocation of zero. *)
Definition tail_blocks_allocated (context_parts : list pystr) (max_total_length : Z) : Prop :=
  forall part_str, In part_str context_parts -> keeps_end part_str = true ->
    allocated_length max_total_length (Z.of_nat (length context_parts)) part_str <> 0.

(** Example data: a character sheet, a running summary and session
    guidance, against a budget of 60. *)
Definition example_parts : list pystr :=
  [ u "플레이어 캐릭터 정보: 이름 아리아, 직업 도적, 레벨 3, 장비 단검과 가죽 갑옷";
    u "지금까지의 상황 요약: 일행은 마을 촌장의 의뢰로 사라진 아이들을 찾아 숲으로 들어갔다";
    u "현재 세션 안내: 모험을 진행하세요" ].

End BudgetSpec.

Module DetectorSpec.
Import MessageProcessor.

(** The number of positions of [s] at which [sub] starts, overlapping
    occurrences included. *)
Fixpoint occurrences (sub s : pystr) : Z :=
  match s with
  | [] => 0
  | _ :: s' => (if startswith sub s then 1 else 0) + occurrences sub s'
  end.

(** No proper suffix of [sub] is a prefix of it, so two occurrences of
    [sub] never overlap. *)
Definition unbordered (sub : pystr) : bool :=
  forallb (fun d => negb (startswith (drop d sub) sub)) (seq 1 (length sub - 1)).

(** Tables for examples: ASCII letters, blanks and digits. *)
Definition ascii_lower (s : pystr) : pystr :=
  map (fun c => if ((65 <=? c) && (c <=? 90))%N then (c + 32)%N else c) s.

Definition ascii_space (c : N) : bool :=
  (c =? 32)%N || ((9 <=? c) && (c <=? 13))%N.

Definition ascii_digit (c : N) : option Z :=
  if ((48 <=? c) && (c <=? 57))%N then Some (Z.of_N c - 48) else None.

(** Three turns that keep coming back to the dungeon. *)
Definition stuck_turns : list pystr :=
  [ u "마스터: 던전 입구에 도착했습니다";
    u "사용자: 던전 안으로 들어간다";
    u "마스터: 던전 안은 어둡습니다. 라운드 2" ].

(** Two turns in the fourth round that repeat no motif three times. *)
Definition fresh_turns : list pystr :=
  [ u "마스터: 라운드 4 - 숲길을 따라 걷습니다";
    u "사용자: 다시 지도를 확인한다" ].

(** A backend that is down. *)
Definition failing_backend (query : pystr) (chunks : list pystr)
    (session_type character_context : pystr) : res pystr := Raise RuntimeError.

End DetectorSpec.

Module StoreSpec.
Import MessageProcessor.

(** A user directory that already holds a saved adventure. *)
Definition old_adventure : json :=
  JObj [ (u "session_type", JStr (u "모험_생성"));
         (u "user_input", JStr (u "모험 완성")) ].

Definition new_adventure : json :=
  JObj [ (u "session_type", JStr (u "모험_생성"));
         (u "user_input", JStr (u "던전으로")) ].

(** The faults that strike before the new file is in place: a call up to
    and including the rename raises, the directory is not writable, or the
    process is stopped before one of these calls. *)
Definition strikes_before_rename_completes (f : fault) : bool :=
  match f with
  | NotWritable => true
  | Raises s _ | KilledBefore s =>
      match s with
      | MakeBaseDir | MakeUserDir | WriteTemp | RemoveOld | RenameTemp => true
      | ReadBack | CleanupTemp => false
      end
  | NoFault => false
  end.

(** Those among them that strike before the old file has been removed. *)
Definition strikes_before_removal (f : fault) : bool :=
  match f with
  | NotWritable => true
  | Raises s _ | KilledBefore s =>
      match s with
      | MakeBaseDir | MakeUserDir | WriteTemp | RemoveOld => true
      | RenameTemp | ReadBack | CleanupTemp => false
      end
  | NoFault => false
  end.

Definition disk_with_adventure : disk :=
  {[ (99999, u "adventure.json") := Text old_adventure ]}.

End StoreSpec.

Module SplitSpec.
Import MessageProcessor.

(** The text without its newlines. *)
Definition strip_nl (s : pystr) : pystr :=
  List.filter (fun c => negb (c =? 10)%N) s.

Definition no_newline (s : pystr) : Prop := ~ In 10%N s.

(** Example data: a reply of three lines, the second one long. *)
Definition long_reply : pystr :=
  u "문이 열립니다." ++ nl ++ u "안쪽에서 차가운 바람이 불어오고 횃불이 흔들립니다." ++ nl ++ u "어떻게 하시겠습니까?".

End SplitSpec.

Module StageMoreSpec.
Import ScenarioManager.
Import ScenarioStage.
Import StageSpec.

(** Several [add_*] calls on the same list, one after the other, each with
    its own clock and disk. *)
Fixpoint add_items (key : pystr) (st : store) (user_id : Z)
    (calls : list (env * list (pystr * json))) : res store :=
  match calls with
  | [] => Val st
  | (e, item_data) :: rest =>
      st' ← add_item key e st user_id item_data;
      add_items key st' user_id rest
  end.

(** The payloads with consecutive ids from [next] on. *)
Fixpoint numbered (next : Z) (payloads : list (list (pystr * json))) : list json :=
  match payloads with
  | [] => []
  | item_data :: rest => with_id item_data next :: numbered (next + 1) rest
  end.

(** The stages that are complete by the number of stored records, with
    the list counted and the number required. *)
Definition counted_stages : list (ScenarioStage.t * pystr * Z) :=
  [ (EPISODES, u "episodes", 3);
    (HINTS, u "hints", 3);
    (DUNGEONS, u "dungeons", 1) ].

(** The five stages that have a completion rule. *)
Definition stages_with_rule : list pystr :=
  map value [OVERVIEW; EPISODES; NPCS; HINTS; DUNGEONS].

(** An NPC subsystem that is down. *)
Definition failing_manager : NpcManager := {| load_npcs := fun _ => Raise RuntimeError |}.

(** A user with three local NPC records. *)
Definition store_with_npcs : store :=
  store_of (add_items (u "npcs") (init_scenario_creation clock0 ∅ 99999).1 99999
              [ (clock0, [(u "name", JStr (u "촌장"))]);
                (clock0, [(u "name", JStr (u "대장장이"))]);
                (clock0, [(u "name", JStr (u "약초꾼"))]) ]).

End StageMoreSpec.

Module EpisodeSpec.
Import ScenarioManager.
Import ScenarioStage.
Import StageSpec.

(** The dict stored under [episode_progress]. *)
Definition stored_progress (st : store) (user_id : Z) : list (pystr * json) :=
  match load_scenario st user_id with
  | JObj o => match dict_get o (u "episode_progress") with
              | Some (JObj progress) => progress
              | _ => []
              end
  | _ => []
  end.

(** The status recorded for a key, if any. *)
Definition status_of (episode_progress : list (pystr * json)) (key : pystr) : option json :=
  match dict_get episode_progress key with
  | Some (JObj entry) => dict_get entry (u "status")
  | _ => None
  end.

Definition running (episode_progress : list (pystr * json)) (key : pystr) : bool :=
  match status_of episode_progress key with
  | Some status => is_str status (u "진행중")
  | None => false
  end.

(** Every progress entry is a dict. *)
Definition entries_are_dicts (episode_progress : list (pystr * json)) : Prop :=
  forall (k : pystr) (v : json),
    dict_get episode_progress k = Some v -> exists entry, v = JObj entry.

(** The progress keys of the episodes, in list order: the episode's own
    [id], or its position counted from one when it has none. *)
Fixpoint episode_keys (py_str : json -> pystr) (i : Z)
    (episodes : list (list (pystr * json))) : list pystr :=
  match episodes with
  | [] => []
  | episode :: rest =>
      episode_key py_str (from_option id (JNum (i + 1)) (dict_get episode (u "id")))
      :: episode_keys py_str (i + 1) rest
  end.

(** Python's [str] on the JSON scalars: decimal digits for a number, the
    string itself for a string.  The examples apply it to numbers only. *)
Definition str_scalar (v : json) : pystr :=
  match v with
  | JNull => u "None"
  | JBool true => u "True"
  | JBool false => u "False"
  | JNum z => u (NilZero.string_of_int (Z.to_int z))
  | JStr s => s
  | JArr _ => u "[...]"
  | JObj _ => u "{...}"
  end.

(** A user with three episodes, stored by [add_episode]. *)
Definition store_three_episodes : store :=
  store_of (StageMoreSpec.add_items (u "episodes") (init_scenario_creation clock0 ∅ 99999).1 99999
              [ (clock0, [(u "title", JStr (u "실종"))]);
                (clock0, [(u "title", JStr (u "추적"))]);
                (clock0, [(u "title", JStr (u "대결"))]) ]).

(** The record of [user_id] with its [episode_progress] replaced. *)
Definition with_progress (st : store) (user_id : Z) (episode_progress : list (pystr * json))
  : store :=
  match load_scenario st user_id with
  | JObj o => <[user_id := JObj (dict_set o (u "episode_progress") (JObj episode_progress))]> st
  | _ => st
  end.

Definition entry_with_status (status : pystr) : json := JObj [(u "status", JStr status)].

(** The same user while the first episode is being played. *)
Definition store_first_running : store :=
  with_progress store_three_episodes 99999 [(u "episode_1", entry_with_status (u "진행중"))].

(** The same user while the last episode is being played. *)
Definition store_last_running : store :=
  with_progress store_three_episodes 99999
    [ (u "episode_1", entry_with_status (u "완료"));
      (u "episode_2", entry_with_status (u "완료"));
      (u "episode_3", entry_with_status (u "진행중")) ].

End EpisodeSpec.
(** * Properties *)

(** ** Strings and dicts *)

Section DictFacts.

Lemma str_eqb_refl (a : pystr) : str_eqb a a = true.
Proof. unfold str_eqb. by rewrite bool_decide_eq_true_2. Qed.

Lemma str_eqb_eq (a b : pystr) : str_eqb a b = true <-> a = b.
Proof. unfold str_eqb. apply bool_decide_eq_true. Qed.

Lemma str_eqb_neq (a b : pystr) : a <> b -> str_eqb a b = false.
Proof. intros H. unfold str_eqb. by rewrite bool_decide_eq_false_2. Qed.

Lemma dict_get_set_eq o k v : dict_get (dict_set o k v) k = Some v.
Proof.
  unfold dict_get.
  induction o as [|[k' v'] o IH]; simpl.
  - by rewrite str_eqb_refl.
  - destruct (str_eqb k' k) eqn:E; simpl; by rewrite E.
Qed.

Lemma dict_get_set_ne o k k' v :
  k <> k' -> dict_get (dict_set o k v) k' = dict_get o k'.
Proof.
  intros Hne. unfold dict_get.
  induction o as [|[k0 v0] o IH]; simpl.
  - by rewrite str_eqb_neq.
  - destruct (str_eqb k0 k) eqn:E; simpl.
    + apply str_eqb_eq in E. subst k0. by rewrite str_eqb_neq.
    + by destruct (str_eqb k0 k').
Qed.

Lemma truthy_str (s : pystr) : truthy (JStr s) = true <-> s <> [].
Proof.
  simpl. rewrite negb_true_iff, bool_decide_eq_false. done.
Qed.

Lemma truthy_obj (o : list (pystr * json)) : truthy (JObj o) = true <-> o <> [].
Proof.
  simpl. rewrite negb_true_iff, bool_decide_eq_false.
  destruct o; simpl; split; intros H; done.
Qed.

Lemma bind_val {A B : Type} (a : A) (f : A -> res B) : (Val a ≫= f) = f a.
Proof. reflexivity. Qed.

Lemma bind_raise {A B : Type} (e : exn) (f : A -> res B) : (Raise e ≫= f) = Raise e.
Proof. reflexivity. Qed.

Lemma py_get_some o k d v : dict_get o k = Some v -> py_get (JObj o) k d = Val v.
Proof. unfold py_get. by intros ->. Qed.

Lemma py_get_dict o k d : py_get (JObj o) k d = Val (from_option id d (dict_get o k)).
Proof. reflexivity. Qed.

Lemma py_index_some o k v : dict_get o k = Some v -> py_index (JObj o) k = Val v.
Proof. unfold py_index. by intros ->. Qed.

Lemma dict_set_nonempty o k v : dict_set o k v <> [].
Proof. destruct o as [|[k' v'] o]; simpl; [done|]. by destruct (str_eqb k' k). Qed.

End DictFacts.

(** ** Stage model *)

Module StageModel.
Import ScenarioManager.
Import ScenarioStage.
Import StageSpec.

Lemma load_scenario_insert (st : store) user_id record :
  load_scenario (<[user_id := record]> st) user_id = record.
Proof. unfold load_scenario. by rewrite lookup_insert_eq. Qed.

Lemma load_scenario_none (st : store) user_id :
  st !! user_id = None -> load_scenario st user_id = JNull.
Proof. unfold load_scenario. by intros ->. Qed.

Lemma load_scenario_some (st : store) user_id record :
  st !! user_id = Some record -> load_scenario st user_id = record.
Proof. unfold load_scenario. by intros ->. Qed.

(** C6. Five applications of [get_next_stage] lead from Overview to
    Completed and no fewer do; a sixth stays at Completed.  The function is
    total: on the six stage values it follows the transition table, with
    Completed mapped to itself, and every other string is sent to a stage
    value as well. *)
Theorem get_next_stage_progression :
  Nat.iter 5 get_next_stage (value OVERVIEW) = value COMPLETED
  /\ Nat.iter 6 get_next_stage (value OVERVIEW) = value COMPLETED
  /\ (forall k : nat, (k < 5)%nat ->
        Nat.iter k get_next_stage (value OVERVIEW) <> value COMPLETED)
  /\ (forall s : ScenarioStage.t, get_next_stage (value s) = value (spec_successor s))
  /\ get_next_stage (value COMPLETED) = value COMPLETED
  /\ (forall current_stage : pystr,
        exists s : ScenarioStage.t, get_next_stage current_stage = value s).
Proof.
  split; [reflexivity|]. split; [reflexivity|].
  split; [|split; [|split; [reflexivity|]]].
  - intros k Hk.
    destruct k as [|[|[|[|[|k]]]]]; try lia; vm_compute; discriminate.
  - intros s. by destruct s.
  - intros current_stage. unfold get_next_stage, stage_flow. simpl.
    repeat match goal with
           | |- context [str_eqb ?a current_stage] => destruct (str_eqb a current_stage)
           end; simpl;
      first [ by exists OVERVIEW | by exists EPISODES | by exists NPCS
            | by exists HINTS | by exists DUNGEONS | by exists COMPLETED ].
Qed.

(** C10. Without a stored record [set_current_stage] leaves the store as
    it was, so no record exists afterwards and [get_current_stage] still
    answers with the default, Overview. *)
Theorem set_current_stage_without_record (e : env) (st : store) (user_id : Z) (stage : pystr) :
  st !! user_id = None ->
  exists st' : store,
    set_current_stage e st user_id stage = Val st'
    /\ st' = st
    /\ st' !! user_id = None
    /\ get_current_stage st' user_id = Val (JStr (value OVERVIEW)).
Proof.
  intros Hnone. exists st.
  unfold set_current_stage, get_current_stage.
  rewrite (load_scenario_none _ _ Hnone). simpl. done.
Qed.

Lemma set_current_stage_without_record_witness :
  exists st' : store,
    set_current_stage {| now := u "2025-01-01 09:00:00"; disk_ok := true |}
                      ∅ 99999 (value HINTS) = Val st'
    /\ st' = ∅
    /\ st' !! 99999 = None
    /\ get_current_stage st' 99999 = Val (JStr (value OVERVIEW)).
Proof.
  apply (set_current_stage_without_record
           {| now := u "2025-01-01 09:00:00"; disk_ok := true |} ∅ 99999 (value HINTS)).
  reflexivity.
Defined.


Lemma save_scenario_dict (e : env) (st : store) (user_id : Z) (o : list (pystr * json)) :
  disk_ok e = true ->
  save_scenario e st user_id (JObj o)
  = (<[user_id := JObj (dict_set o (u "last_updated") (JStr (now e)))]> st,
     JObj (dict_set o (u "last_updated") (JStr (now e))), true).
Proof. intros Hok. unfold save_scenario. simpl. by rewrite Hok. Qed.

(** [init_scenario_creation] writes the same record whatever the store held. *)
Lemma init_scenario_creation_stores (e : env) (st : store) (user_id : Z) :
  disk_ok e = true ->
  init_scenario_creation e st user_id
  = (<[user_id := (init_scenario_creation e ∅ user_id).2]> st,
     (init_scenario_creation e ∅ user_id).2).
Proof.
  intros Hok. unfold init_scenario_creation.
  rewrite !save_scenario_dict by done. reflexivity.
Qed.

Lemma truthy_init_record (e : env) (user_id : Z) :
  truthy (init_scenario_creation e ∅ user_id).2 = true.
Proof. unfold init_scenario_creation, save_scenario. simpl. by destruct (disk_ok e). Qed.

(** The claim of C3 fails on a user who has reached the Episodes stage:
    the second initialisation hands back a new record. *)
Lemma init_keeps_existing_record_fails :
  ~ init_keeps_existing_record clock0 store_in_episodes 99999.
Proof.
  intros H.
  specialize (H (load_scenario store_in_episodes 99999) eq_refl).
  apply (f_equal snd) in H. vm_compute in H. discriminate H.
Qed.

(** C3, amended. [init_scenario_creation] never looks at what is stored:
    it returns a new record and, when the write goes through, puts that
    record in place of any earlier one.  Afterwards the current stage reads
    Overview, the four content lists are empty, the overview fields are
    empty strings and no stage is complete. *)
Theorem init_scenario_creation_overwrites (e : env) (st : store) (user_id : Z) :
  disk_ok e = true ->
  let result := init_scenario_creation e st user_id in
  result.1 = <[user_id := result.2]> st
  /\ result.2 = (init_scenario_creation e ∅ user_id).2
  /\ get_current_stage result.1 user_id = Val (JStr (value OVERVIEW))
  /\ (forall key, In key [u "episodes"; u "npcs"; u "hints"; u "dungeons"] ->
        dict_get (stored_scenario result.1 user_id) key = Some (JArr []))
  /\ (forall k, In k (u "rewards" :: required_overview_fields) ->
        dict_get (stored_overview result.1 user_id) k = Some (JStr []))
  /\ (forall stage, is_stage_complete None result.1 user_id stage = Val false).
Proof.
  intros Hok result. subst result.
  rewrite (init_scenario_creation_stores e st user_id Hok). simpl fst. simpl snd.
  split; [reflexivity|]. split; [reflexivity|].
  unfold get_current_stage, is_stage_complete, stored_overview, stored_scenario.
  rewrite !load_scenario_insert.
  unfold init_scenario_creation. rewrite save_scenario_dict by done. simpl snd.
  split; [reflexivity|].
  split.
  { intros key Hin. simpl in Hin.
    destruct Hin as [<-|[<-|[<-|[<-|[]]]]]; reflexivity. }
  split.
  { intros k Hin. simpl in Hin.
    destruct Hin as [<-|[<-|[<-|[<-|[<-|[]]]]]]; reflexivity. }
  intros stage.
  generalize (str_eqb stage (value OVERVIEW)), (str_eqb stage (value EPISODES)),
    (str_eqb stage (value NPCS)), (str_eqb stage (value HINTS)),
    (str_eqb stage (value DUNGEONS)).
  intros [] [] [] [] []; reflexivity.
Qed.

Lemma init_scenario_creation_overwrites_witness :
  let result := init_scenario_creation clock0 store_in_episodes 99999 in
  result.1 = <[99999 := result.2]> store_in_episodes
  /\ result.2 = (init_scenario_creation clock0 ∅ 99999).2
  /\ get_current_stage result.1 99999 = Val (JStr (value OVERVIEW))
  /\ (forall key, In key [u "episodes"; u "npcs"; u "hints"; u "dungeons"] ->
        dict_get (stored_scenario result.1 99999) key = Some (JArr []))
  /\ (forall k, In k (u "rewards" :: required_overview_fields) ->
        dict_get (stored_overview result.1 99999) k = Some (JStr []))
  /\ (forall stage, is_stage_complete None result.1 99999 stage = Val false).
Proof.
  apply (init_scenario_creation_overwrites clock0 store_in_episodes 99999).
  reflexivity.
Defined.

(** The claim of C4 fails once theme, setting, conflict and objective are
    filled in: the stage is complete although no title was ever given. *)
Lemma overview_needs_five_fields_fails :
  ~ overview_needs_five_fields None store_overview_done 99999.
Proof.
  intros [Hcomplete _].
  destruct (Hcomplete eq_refl) as [Htitle _].
  vm_compute in Htitle. discriminate Htitle.
Qed.

(** C4, amended.  On a stored record whose [scenario["overview"]] is a
    dict, the Overview stage is complete exactly when theme, setting,
    main_conflict and objective are all present and truthy (for strings:
    non-empty).  Neither the title nor the rewards are read. *)
Theorem overview_complete_iff_four_fields (m : option NpcManager) (st : store) (user_id : Z)
    (o sc ov : list (pystr * json)) :
  st !! user_id = Some (JObj o) ->
  o <> [] ->
  dict_get o (u "scenario") = Some (JObj sc) ->
  dict_get sc (u "overview") = Some (JObj ov) ->
  (is_stage_complete m st user_id (value OVERVIEW) = Val true <->
   forall k, In k required_overview_fields ->
             exists v, dict_get ov k = Some v /\ truthy v = true).
Proof.
  intros Hst Ho Hsc Hov.
  unfold is_stage_complete.
  rewrite (load_scenario_some _ _ _ Hst).
  apply truthy_obj in Ho. rewrite Ho. simpl negb. cbv iota.
  rewrite (py_get_some _ _ _ _ Hsc), bind_val, str_eqb_refl.
  rewrite (py_get_some _ _ _ _ Hov), bind_val.
  rewrite !py_get_dict, !bind_val.
  unfold required_overview_fields.
  split.
  - intros H. injection H as H. simpl in H.
    repeat (apply andb_prop in H; destruct H as [? H]).
    intros k [<-|[<-|[<-|[<-|[]]]]];
      match goal with
      | |- exists v, dict_get ov ?k = _ /\ _ =>
          destruct (dict_get ov k) as [v|]; [exists v; by split | discriminate]
      end.
  - intros H.
    destruct (H (u "theme")) as (v1 & -> & T1); [simpl; tauto|].
    destruct (H (u "setting")) as (v2 & -> & T2); [simpl; tauto|].
    destruct (H (u "main_conflict")) as (v3 & -> & T3); [simpl; tauto|].
    destruct (H (u "objective")) as (v4 & -> & T4); [simpl; tauto|].
    simpl. by rewrite T1, T2, T3, T4.
Qed.

Lemma overview_complete_iff_four_fields_witness :
  is_stage_complete None store_overview_done 99999 (value OVERVIEW) = Val true <->
  forall k, In k required_overview_fields ->
            exists v, dict_get (stored_overview store_overview_done 99999) k = Some v
                      /\ truthy v = true.
Proof.
  apply (overview_complete_iff_four_fields None store_overview_done 99999
           (match load_scenario store_overview_done 99999 with JObj o => o | _ => [] end)
           (stored_scenario store_overview_done 99999)
           (stored_overview store_overview_done 99999)).
  - vm_compute; reflexivity.
  - vm_compute; discriminate.
  - vm_compute; reflexivity.
  - vm_compute; reflexivity.
Defined.

(** A length of three or more makes a value truthy. *)
Lemma py_len_truthy (v : json) (n : Z) : py_len v = Val n -> 3 <= n -> truthy v = true.
Proof.
  destruct v as [| | |s|l|o]; simpl; try discriminate;
    intros [= <-] Hn; rewrite negb_true_iff, bool_decide_eq_false;
    unfold len in *; intros Hz; try rewrite Hz in Hn; simpl in Hn; lia.
Qed.

Lemma is_npc_stage_complete_iff (m : NpcManager) (user_id : Z) :
  is_npc_stage_complete (Some m) user_id = true <->
  exists npcs n, load_npcs m user_id = Val npcs /\ py_len npcs = Val n /\ 3 <= n.
Proof.
  unfold is_npc_stage_complete, try_except.
  split.
  - destruct (load_npcs m user_id) as [npcs|err]; [|discriminate].
    rewrite bind_val.
    destruct (truthy npcs); [|discriminate].
    destruct (py_len npcs) as [n|err] eqn:Hlen; [|discriminate].
    rewrite bind_val. simpl. intros H. apply Z.leb_le in H. by exists npcs, n.
  - intros (npcs & n & -> & Hlen & Hn).
    rewrite bind_val, (py_len_truthy _ _ Hlen Hn), Hlen, bind_val. simpl.
    by apply Z.leb_le.
Qed.

(** The claim of C2 fails on a user without any local NPC record: the
    answer of the NPC subsystem alone completes the stage. *)
Lemma npc_stage_needs_both_fails :
  ~ npc_stage_needs_both ready_manager store_overview_done 99999.
Proof.
  intros H. destruct (H eq_refl) as [Hlocal _].
  change (stored_items store_overview_done 99999 (u "npcs")) with (@nil json) in Hlocal.
  simpl in Hlocal. lia.
Qed.

(** C2, amended.  With the NPC subsystem available the NPC stage is
    complete exactly when the user has a stored record (a non-empty dict)
    and the subsystem's [load_npcs] returns, without raising, a collection
    of three or more.  The locally stored NPC records are not counted. *)
Theorem npc_stage_complete_iff_manager_ready (m : NpcManager) (st : store) (user_id : Z) :
  is_stage_complete (Some m) st user_id (value NPCS) = Val true <->
  (exists o, st !! user_id = Some (JObj o) /\ o <> [])
  /\ (exists npcs n, load_npcs m user_id = Val npcs /\ py_len npcs = Val n /\ 3 <= n).
Proof.
  rewrite <- is_npc_stage_complete_iff.
  unfold is_stage_complete, load_scenario.
  destruct (st !! user_id) as [record|] eqn:Hst; simpl default.
  - destruct record as [|b|z|s|l|o].
    + simpl. split; [discriminate|]. by intros [(o & [=] & _) _].
    + destruct b; simpl; (split; [discriminate|]); by intros [(o & [=] & _) _].
    + destruct (truthy (JNum z)); simpl; (split; [discriminate|]);
        by intros [(o & [=] & _) _].
    + destruct (truthy (JStr s)); simpl; (split; [discriminate|]);
        by intros [(o & [=] & _) _].
    + destruct (truthy (JArr l)); simpl; (split; [discriminate|]);
        by intros [(o & [=] & _) _].
    + destruct (truthy (JObj o)) eqn:Ho; simpl negb; cbv iota.
      * rewrite py_get_dict, bind_val.
        change (str_eqb (value NPCS) (value OVERVIEW)) with false.
        change (str_eqb (value NPCS) (value EPISODES)) with false.
        change (str_eqb (value NPCS) (value NPCS)) with true.
        cbv iota. apply truthy_obj in Ho.
        split.
        -- intros [= H]. split; [by exists o | done].
        -- intros [_ H]. by rewrite H.
      * split; [discriminate|]. intros [(o' & [= <-] & Hne) _].
        apply truthy_obj in Hne. congruence.
  - simpl. split; [discriminate|]. by intros [(o & [=] & _) _].
Qed.

(** *** Appending content *)

Lemma has_items_init (e : env) (st : store) (user_id : Z) (key : pystr) :
  disk_ok e = true ->
  In key [u "episodes"; u "npcs"; u "hints"; u "dungeons"] ->
  has_items (init_scenario_creation e st user_id).1 user_id key [].
Proof.
  intros Hok Hkey.
  rewrite (init_scenario_creation_stores e st user_id Hok). simpl fst.
  unfold init_scenario_creation. rewrite save_scenario_dict by done. simpl snd.
  eexists _, _. rewrite lookup_insert_eq.
  split; [reflexivity|]. split; [discriminate|]. split; [reflexivity|].
  simpl in Hkey. destruct Hkey as [<-|[<-|[<-|[<-|[]]]]]; reflexivity.
Qed.

Lemma has_items_stored (st : store) (user_id : Z) (key : pystr) (items : list json) :
  has_items st user_id key items -> stored_items st user_id key = items.
Proof.
  intros (o & sc & Hst & _ & Hsc & Hitems).
  unfold stored_items, stored_scenario.
  by rewrite (load_scenario_some _ _ _ Hst), Hsc, Hitems.
Qed.

(** One [add_*] call on a well-formed record: the payload is stored last,
    with the length of the list plus one as its id. *)
Lemma add_item_has_items (key : pystr) (e : env) (st : store) (user_id : Z)
    (item_data : list (pystr * json)) (items : list json) :
  disk_ok e = true ->
  has_items st user_id key items ->
  exists st',
    add_item key e st user_id item_data = Val st'
    /\ has_items st' user_id key
         (items ++ [with_id item_data (Z.of_nat (length items) + 1)]).
Proof.
  intros Hok (o & sc & Hst & Ho & Hsc & Hitems).
  unfold add_item.
  rewrite (load_scenario_some _ _ _ Hst).
  apply truthy_obj in Ho. rewrite Ho.
  rewrite (py_index_some _ _ _ Hsc), bind_val.
  rewrite (py_index_some _ _ _ Hitems), bind_val.
  simpl py_len. rewrite bind_val.
  simpl py_append. rewrite bind_val.
  simpl py_setitem. rewrite !bind_val.
  rewrite save_scenario_dict by done.
  eexists. split; [reflexivity|].
  eexists _, _. simpl fst. rewrite lookup_insert_eq.
  split; [reflexivity|].
  split; [apply dict_set_nonempty|].
  split.
  - rewrite dict_get_set_ne by (intros H; by vm_compute in H).
    apply dict_get_set_eq.
  - apply dict_get_set_eq.
Qed.

Lemma count_at_least_items (sc : list (pystr * json)) (key : pystr) (items : list json)
    (threshold : Z) :
  dict_get sc key = Some (JArr items) ->
  count_at_least (JObj sc) key threshold = Val (threshold <=? Z.of_nat (length items)).
Proof.
  intros H. unfold count_at_least. by rewrite (py_get_some _ _ _ _ H), bind_val.
Qed.

Lemma hints_complete_has_items (m : option NpcManager) (st : store) (user_id : Z)
    (items : list json) :
  has_items st user_id (u "hints") items ->
  is_stage_complete m st user_id (value HINTS) = Val (3 <=? Z.of_nat (length items)).
Proof.
  intros (o & sc & Hst & Ho & Hsc & Hitems).
  unfold is_stage_complete.
  rewrite (load_scenario_some _ _ _ Hst).
  apply truthy_obj in Ho. rewrite Ho. simpl negb. cbv iota.
  rewrite (py_get_some _ _ _ _ Hsc), bind_val.
  change (str_eqb (value HINTS) (value OVERVIEW)) with false.
  change (str_eqb (value HINTS) (value EPISODES)) with false.
  change (str_eqb (value HINTS) (value NPCS)) with false.
  change (str_eqb (value HINTS) (value HINTS)) with true.
  cbv iota. by apply count_at_least_items.
Qed.

(** C7.  After [init_scenario_creation], three [add_hint] calls succeed
    and store the three payloads in call order with the ids 1, 2, 3; the
    Hints stage is then complete. *)
Theorem three_hints_get_ids_1_2_3 (m : option NpcManager) (e0 e1 e2 e3 : env)
    (st : store) (user_id : Z) (h1 h2 h3 : list (pystr * json)) :
  disk_ok e0 = true -> disk_ok e1 = true -> disk_ok e2 = true -> disk_ok e3 = true ->
  exists st3 : store,
    (let st0 := (init_scenario_creation e0 st user_id).1 in
     st1 ← add_hint e1 st0 user_id h1;
     st2 ← add_hint e2 st1 user_id h2;
     add_hint e3 st2 user_id h3) = Val st3
    /\ stored_items st3 user_id (u "hints") = [with_id h1 1; with_id h2 2; with_id h3 3]
    /\ map item_id (stored_items st3 user_id (u "hints"))
       = [Some (JNum 1); Some (JNum 2); Some (JNum 3)]
    /\ is_stage_complete m st3 user_id (value HINTS) = Val true.
Proof.
  intros H0 H1 H2 H3. cbv zeta.
  assert (Hinit := has_items_init e0 st user_id (u "hints") H0).
  specialize (Hinit ltac:(simpl; tauto)).
  destruct (add_item_has_items (u "hints") e1 _ user_id h1 _ H1 Hinit) as (st1 & E1 & I1).
  destruct (add_item_has_items (u "hints") e2 _ user_id h2 _ H2 I1) as (st2 & E2 & I2).
  destruct (add_item_has_items (u "hints") e3 _ user_id h3 _ H3 I2) as (st3 & E3 & I3).
  simpl in I3.
  exists st3. unfold add_hint.
  rewrite E1, bind_val, E2, bind_val, E3.
  split; [reflexivity|].
  rewrite (has_items_stored _ _ _ _ I3).
  split; [reflexivity|].
  split.
  - unfold with_id, item_id. simpl map. by rewrite !dict_get_set_eq.
  - by rewrite (hints_complete_has_items m _ _ _ I3).
Qed.

Lemma three_hints_get_ids_1_2_3_witness :
  exists st3 : store,
    (let st0 := (init_scenario_creation clock0 ∅ 99999).1 in
     st1 ← add_hint clock0 st0 99999 [(u "content", JStr (u "낡은 일기장"))];
     st2 ← add_hint clock0 st1 99999 [(u "content", JStr (u "진흙 발자국"))];
     add_hint clock0 st2 99999 [(u "content", JStr (u "깨진 등불"))]) = Val st3
    /\ stored_items st3 99999 (u "hints")
       = [with_id [(u "content", JStr (u "낡은 일기장"))] 1;
          with_id [(u "content", JStr (u "진흙 발자국"))] 2;
          with_id [(u "content", JStr (u "깨진 등불"))] 3]
    /\ map item_id (stored_items st3 99999 (u "hints"))
       = [Some (JNum 1); Some (JNum 2); Some (JNum 3)]
    /\ is_stage_complete None st3 99999 (value HINTS) = Val true.
Proof.
  apply (three_hints_get_ids_1_2_3 None clock0 clock0 clock0 clock0 ∅ 99999
           [(u "content", JStr (u "낡은 일기장"))]
           [(u "content", JStr (u "진흙 발자국"))]
           [(u "content", JStr (u "깨진 등불"))]); reflexivity.
Defined.

End StageModel.

(** ** Context budgeter *)

Module Budget.
Import MessageProcessor.
Import BudgetSpec.

Lemma len_app (a b : pystr) : len (a ++ b) = len a + len b.
Proof. unfold len. rewrite length_app. lia. Qed.

Lemma len_nonneg (s : pystr) : 0 <= len s.
Proof. unfold len. lia. Qed.

Lemma len_head_elision : len head_elision = 17.
Proof. reflexivity. Qed.

Lemma len_tail_elision : len tail_elision = 17.
Proof. reflexivity. Qed.

Lemma elision_overhead_17 : elision_overhead = 17.
Proof. reflexivity. Qed.

Lemma len_slice_to (s : pystr) (n : Z) : 0 <= n <= len s -> len (slice_to s n) = n.
Proof.
  intros Hn. unfold slice_to, slice_index.
  destruct (n <? 0) eqn:E; [apply Z.ltb_lt in E; lia|].
  unfold len in *. rewrite length_take. lia.
Qed.

Lemma len_slice_from_end (s : pystr) (n : Z) :
  0 < n <= len s -> len (slice_from s (- n)) = n.
Proof.
  intros Hn. unfold slice_from, slice_index.
  destruct (- n <? 0) eqn:E; [|apply Z.ltb_ge in E; lia].
  unfold len in *. rewrite length_drop. lia.
Qed.

(** [text[-0:]] is the whole text. *)
Lemma slice_from_minus_zero (s : pystr) : slice_from s (- 0) = s.
Proof. unfold slice_from, slice_index. simpl. unfold len. by rewrite Z.min_r, Z.max_r by lia. Qed.

Lemma len_truncate_head (s : pystr) (n : Z) :
  0 <= n < len s -> len (truncate_text_safely s n false) = n + 17.
Proof.
  intros Hn. unfold truncate_text_safely.
  destruct (len s <=? n) eqn:E; [apply Z.leb_le in E; lia|].
  rewrite len_app, len_tail_elision, len_slice_to; lia.
Qed.

Lemma len_truncate_tail (s : pystr) (n : Z) :
  0 < n < len s -> len (truncate_text_safely s n true) = n + 17.
Proof.
  intros Hn. unfold truncate_text_safely.
  destruct (len s <=? n) eqn:E; [apply Z.leb_le in E; lia|].
  rewrite len_app, len_head_elision, len_slice_from_end; lia.
Qed.

Lemma allocated_length_nonneg (max_total_length n_parts : Z) (part_str : pystr) :
  0 <= max_total_length -> 0 < n_parts ->
  0 <= allocated_length max_total_length n_parts part_str.
Proof.
  intros Hmax Hn. unfold allocated_length.
  destruct (first_priority priority_keywords part_str) as [[num den]|] eqn:E.
  - assert (0 <= num /\ 0 < den) as [Hnum Hden].
    { unfold priority_keywords in E. simpl in E.
      repeat match type of E with
             | (if ?c then _ else _) = _ => destruct c
             end; inversion E; lia. }
    apply Z.quot_pos; nia.
  - apply Z.div_pos; lia.
Qed.

Section Loop.
Variables (max_total_length n_parts : Z).
Hypothesis max_nonneg : 0 <= max_total_length.
Hypothesis n_parts_pos : 0 < n_parts.

Let loop := optimize_loop max_total_length n_parts.

Lemma optimize_loop_exhausted (parts : list pystr) (remaining : Z) :
  remaining <= 0 -> loop parts remaining = ([], []).
Proof.
  intros Hr. destruct parts; [done|]. unfold loop. simpl.
  by rewrite (proj2 (Z.leb_le _ _) Hr).
Qed.

(** The emitted blocks exceed what remained by at most one marker, and
    by nothing when no block was truncated. *)
Lemma optimize_loop_bound (parts : list pystr) :
  (forall part_str, In part_str parts -> keeps_end part_str = true ->
      allocated_length max_total_length n_parts part_str <> 0) ->
  forall remaining, 0 <= remaining ->
    sum_len (loop parts remaining).1
    <= remaining + 17 * Z.min 1 (Z.of_nat (length (loop parts remaining).2)).
Proof.
  induction parts as [|part_str rest IH]; intros Halloc remaining Hrem.
  - simpl. lia.
  - unfold loop in *. simpl.
    destruct (remaining <=? 0) eqn:Er; [simpl; lia|].
    apply Z.leb_gt in Er.
    assert (Hnn := allocated_length_nonneg max_total_length n_parts part_str
                     max_nonneg n_parts_pos).
    assert (Hlen := len_nonneg part_str).
    set (actual := Z.min (Z.min (allocated_length max_total_length n_parts part_str)
                                remaining) (len part_str)).
    assert (Hrest : forall p, In p rest -> keeps_end p = true ->
              allocated_length max_total_length n_parts p <> 0).
    { intros p Hp. apply Halloc. by right. }
    destruct (actual <? len part_str) eqn:Et.
    + apply Z.ltb_lt in Et.
      assert (Hout : len (truncate_text_safely part_str actual (keeps_end part_str))
                     = actual + 17).
      { destruct (keeps_end part_str) eqn:Ek.
        - apply len_truncate_tail.
          assert (allocated_length max_total_length n_parts part_str <> 0)
            by (apply Halloc; [by left | done]).
          subst actual. lia.
        - apply len_truncate_head. subst actual. lia. }
      rewrite Hout.
      destruct (Z_le_gt_dec 0 (remaining - (actual + 17))) as [Hge|Hlt].
      * specialize (IH Hrest _ Hge).
        destruct (optimize_loop max_total_length n_parts rest
                    (remaining - (actual + 17))) as [out log].
        simpl in *. rewrite Hout. lia.
      * rewrite optimize_loop_exhausted by lia. simpl. rewrite Hout.
        subst actual. lia.
    + apply Z.ltb_ge in Et.
      assert (Hge : 0 <= remaining - len part_str) by (subst actual; lia).
      specialize (IH Hrest _ Hge).
      destruct (optimize_loop max_total_length n_parts rest
                  (remaining - len part_str)) as [out log].
      simpl in *. lia.
Qed.

(** Blocks are emitted in input order, at most one per input block. *)
Lemma optimize_loop_length (parts : list pystr) (remaining : Z) :
  (length (loop parts remaining).1 <= length parts)%nat.
Proof.
  revert remaining. induction parts as [|part_str rest IH]; intros remaining.
  - simpl. lia.
  - unfold loop in *. simpl.
    destruct (remaining <=? 0); [simpl; lia|].
    match goal with |- context [if ?c then _ else _] => destruct c end.
    + specialize (IH (remaining -
        len (truncate_text_safely part_str
               (Z.min (Z.min (allocated_length max_total_length n_parts part_str) remaining)
                      (len part_str)) (keeps_end part_str)))).
      destruct (optimize_loop _ _ rest _) as [out log]. simpl in *. lia.
    + specialize (IH (remaining - len part_str)).
      destruct (optimize_loop _ _ rest _) as [out log]. simpl in *. lia.
Qed.

(** A block is emitted only while budget remains. *)
Lemma optimize_loop_prefix (parts : list pystr) :
  forall remaining (k : nat),
    (k < length (loop parts remaining).1)%nat ->
    sum_len (take k (loop parts remaining).1) < remaining.
Proof.
  induction parts as [|part_str rest IH]; intros remaining k Hk.
  - simpl in Hk. lia.
  - unfold loop in *. simpl in *.
    destruct (remaining <=? 0) eqn:Er; [simpl in Hk; lia|].
    apply Z.leb_gt in Er.
    match type of Hk with context [if ?c then _ else _] => destruct c end.
    + specialize (IH (remaining -
        len (truncate_text_safely part_str
               (Z.min (Z.min (allocated_length max_total_length n_parts part_str) remaining)
                      (len part_str)) (keeps_end part_str)))).
      destruct (optimize_loop _ _ rest _) as [out log]. simpl in *.
      destruct k as [|k]; simpl; [lia|].
      specialize (IH k ltac:(lia)). lia.
    + specialize (IH (remaining - len part_str)).
      destruct (optimize_loop _ _ rest _) as [out log]. simpl in *.
      destruct k as [|k]; simpl; [lia|].
      specialize (IH k ltac:(lia)). lia.
Qed.

(** Every emitted block is the input block at the same position, whole or
    cut by [truncate_text_safely]. *)
Lemma optimize_loop_blocks (parts : list pystr) :
  forall remaining (i : nat) (block : pystr),
    (loop parts remaining).1 !! i = Some block ->
    exists part_str,
      parts !! i = Some part_str
      /\ (block = part_str
          \/ exists n, block = truncate_text_safely part_str n (keeps_end part_str)).
Proof.
  induction parts as [|part_str rest IH]; intros remaining i block Hi.
  - simpl in Hi. done.
  - unfold loop in *. simpl in Hi.
    destruct (remaining <=? 0); [simpl in Hi; done|].
    match type of Hi with context [if ?c then _ else _] => destruct c end.
    + specialize (IH (remaining -
        len (truncate_text_safely part_str
               (Z.min (Z.min (allocated_length max_total_length n_parts part_str) remaining)
                      (len part_str)) (keeps_end part_str)))).
      destruct (optimize_loop _ _ rest _) as [out log]. simpl in *.
      destruct i as [|i]; simpl in *.
      * injection Hi as <-. exists part_str. split; [done|]. right. by eexists.
      * by apply IH.
    + specialize (IH (remaining - len part_str)).
      destruct (optimize_loop _ _ rest _) as [out log]. simpl in *.
      destruct i as [|i]; simpl in *.
      * injection Hi as <-. exists part_str. split; [done|]. by left.
      * by apply IH.
Qed.

End Loop.

(** A budget of ten or more that is not below the number of blocks gives
    every block a positive allocation. *)
Lemma allocated_length_positive (max_total_length n_parts : Z) (part_str : pystr) :
  10 <= max_total_length -> 0 < n_parts <= max_total_length ->
  0 < allocated_length max_total_length n_parts part_str.
Proof.
  intros Hmax Hn. unfold allocated_length.
  destruct (first_priority priority_keywords part_str) as [[num den]|] eqn:E.
  - assert (den = 100 /\ 10 <= num) as [-> Hnum].
    { unfold priority_keywords in E. simpl in E.
      repeat match type of E with
             | (if ?c then _ else _) = _ => destruct c
             end; inversion E; lia. }
    rewrite Z.quot_div_nonneg by lia.
    apply Z.div_str_pos. nia.
  - apply Z.div_str_pos. lia.
Qed.

Lemma tail_blocks_allocated_large_budget (context_parts : list pystr) (max_total_length : Z) :
  10 <= max_total_length ->
  Z.of_nat (length context_parts) <= max_total_length ->
  tail_blocks_allocated context_parts max_total_length.
Proof.
  intros Hmax Hn part_str Hin _.
  assert (0 < Z.of_nat (length context_parts)) by (destruct context_parts; [done | simpl; lia]).
  assert (H1 := allocated_length_positive max_total_length
                  (Z.of_nat (length context_parts)) part_str Hmax ltac:(lia)).
  lia.
Qed.

(** The bound of C5 fails for a negative budget, where nothing is emitted,
    and for a block that keeps its end and is allocated zero characters:
    [text[-0:]] is the whole text, so the block comes out longer than it
    went in. *)
Lemma budget_bound_as_stated_fails :
  ~ budget_bound_as_stated [u "a"] (-1)
  /\ ~ budget_bound_as_stated [u "상황 요약"] 4.
Proof.
  split; intros H.
  - assert (Hlt : -1 < sum_len [u "a"]) by (vm_compute; reflexivity).
    specialize (H Hlt). vm_compute in H. by apply H.
  - assert (Hlt : 4 < sum_len [u "상황 요약"]) by (vm_compute; reflexivity).
    specialize (H Hlt). vm_compute in H. by apply H.
Qed.

(** What the call does at the second of these inputs: the five code points
    of the block come back behind the 17 of the marker. *)
Lemma zero_allocation_keeps_whole_block :
  optimize_context_parts [u "상황 요약"] 4 = [head_elision ++ u "상황 요약"]
  /\ sum_len (optimize_context_parts [u "상황 요약"] 4) = 22
  /\ truncated_blocks [u "상황 요약"] 4 = 1.
Proof. repeat split. Qed.

(** C5, amended.  For a budget that is not negative and a list of blocks
    longer than it, in which no block that keeps its end is allocated zero
    characters, the emitted blocks total at most the budget plus 17 for
    each truncated block.  Every emitted block is the input block at its
    position, whole or truncated, and is emitted only while budget remains: the blocks before any
    emitted one total less than the budget, so nothing follows once it is
    used up. *)
Theorem optimize_context_parts_budget (context_parts : list pystr) (max_total_length : Z) :
  0 <= max_total_length ->
  tail_blocks_allocated context_parts max_total_length ->
  max_total_length < sum_len context_parts ->
  let out := optimize_context_parts context_parts max_total_length in
  sum_len out
  <= max_total_length + elision_overhead * truncated_blocks context_parts max_total_length
  /\ (forall (i : nat) (block : pystr),
        out !! i = Some block ->
        exists part_str,
          context_parts !! i = Some part_str
          /\ (block = part_str
              \/ exists n, block = truncate_text_safely part_str n (keeps_end part_str)))
  /\ (forall k : nat, (k < length out)%nat -> sum_len (take k out) < max_total_length).
Proof.
  intros Hmax Halloc Hover out. subst out.
  unfold optimize_context_parts, truncated_blocks, optimize_context.
  destruct context_parts as [|part_str rest] eqn:Eparts; [simpl in Hover; lia|].
  rewrite <- Eparts in *.
  assert (Hn : 0 < Z.of_nat (length context_parts)) by (subst; simpl; lia).
  assert (Hsize : is_oversized (check_context_size context_parts max_total_length) = true).
  { simpl. by apply Z.ltb_lt. }
  rewrite Hsize. simpl negb. cbv iota.
  split; [|split].
  - pose proof (optimize_loop_bound max_total_length (Z.of_nat (length context_parts))
                  Hmax Hn context_parts Halloc max_total_length Hmax) as Hb.
    rewrite elision_overhead_17. lia.
  - intros i block Hi. by apply (optimize_loop_blocks _ _ _ _ _ _ Hi).
  - intros k Hk. by apply optimize_loop_prefix.
Qed.

Lemma optimize_context_parts_budget_witness :
  let out := optimize_context_parts example_parts 60 in
  sum_len out <= 60 + elision_overhead * truncated_blocks example_parts 60
  /\ (forall (i : nat) (block : pystr),
        out !! i = Some block ->
        exists part_str,
          example_parts !! i = Some part_str
          /\ (block = part_str
              \/ exists n, block = truncate_text_safely part_str n (keeps_end part_str)))
  /\ (forall k : nat, (k < length out)%nat -> sum_len (take k out) < 60).
Proof.
  apply (optimize_context_parts_budget example_parts 60).
  - lia.
  - intros part_str Hin _. simpl in Hin.
    destruct Hin as [<-|[<-|[<-|[]]]]; vm_compute; discriminate.
  - vm_compute; reflexivity.
Defined.

End Budget.

(** ** Completion detector *)

Module Completion.
Import MessageProcessor.
Import DetectorSpec.

(** Whatever the backend does, the detector returns a boolean. *)
Lemma extract_session_completion_info_returns
    (llm : pystr -> list pystr -> pystr -> pystr -> res pystr)
    (text session_type : pystr) (conversation_history : list pystr) :
  exists b : bool,
    extract_session_completion_info llm text session_type conversation_history = Val b.
Proof.
  unfold extract_session_completion_info.
  destruct (keyword_hit session_type text); [by exists true|].
  destruct (assoc session_descriptions session_type) as [description|]; [|by exists false].
  unfold try_except.
  destruct (llm _ _ _ _) as [answer|err]; simpl; eauto.
Qed.

(** C9.  When no completion keyword is found and the session type has a
    description, the backend is called with the judge prompt; if that call
    raises, the detector returns false and raises nothing itself. *)
Theorem backend_failure_means_not_complete
    (llm : pystr -> list pystr -> pystr -> pystr -> res pystr)
    (text session_type : pystr) (conversation_history : list pystr)
    (description : pystr) (err : exn) :
  keyword_hit session_type text = false ->
  assoc session_descriptions session_type = Some description ->
  llm (completion_prompt session_type description
         (join nl (last_n 5 conversation_history)) text)
      [] (u "기타") [] = Raise err ->
  extract_session_completion_info llm text session_type conversation_history = Val false.
Proof.
  intros Hkw Hdesc Hraise.
  unfold extract_session_completion_info.
  rewrite Hkw, Hdesc. cbv zeta. by rewrite Hraise.
Qed.

Lemma backend_failure_means_not_complete_witness :
  extract_session_completion_info failing_backend (u "함정을 더 넣고 싶어요")
    (u "던전_생성") [u "사용자: 던전을 만들자"; u "마스터: 어떤 유형의 던전인가요?"]
  = Val false.
Proof.
  apply (backend_failure_means_not_complete failing_backend (u "함정을 더 넣고 싶어요")
           (u "던전_생성") [u "사용자: 던전을 만들자"; u "마스터: 어떤 유형의 던전인가요?"]
           (u "던전의 유형, 구조, 주요 방들, 함정과 괴물들이 충분히 설계되었는지")
           RuntimeError).
  - vm_compute; reflexivity.
  - vm_compute; reflexivity.
  - reflexivity.
Defined.

End Completion.

(** ** Repetition guard *)

Module Repetition.
Import MessageProcessor.
Import DetectorSpec.

(** *** [str.count] and occurrences *)

Lemma startswith_app (p s : pystr) : startswith p s = true <-> exists t, s = p ++ t.
Proof.
  revert s. induction p as [|a p IH]; intros s; simpl.
  - split; [by exists s | done].
  - destruct s as [|b s]; simpl.
    + split; [done | by intros [t ?]].
    + rewrite andb_true_iff, N.eqb_eq, IH. split.
      * intros [-> [t ->]]. by exists t.
      * intros [t [= -> ->]]. split; [done | by exists t].
Qed.

Lemma occurrences_nonneg (sub s : pystr) : 0 <= occurrences sub s.
Proof. induction s as [|c s IH]; simpl; [lia|]. destruct (startswith sub (c :: s)); lia. Qed.

(** Inside an occurrence of an unbordered string no other one starts. *)
Lemma unbordered_no_overlap (sub s : pystr) (d : nat) :
  unbordered sub = true ->
  startswith sub s = true ->
  (0 < d < length sub)%nat ->
  startswith sub (drop d s) = false.
Proof.
  intros Hunb Hs Hd.
  destruct (startswith sub (drop d s)) eqn:Hds; [|done].
  exfalso.
  apply startswith_app in Hs as [t ->].
  apply startswith_app in Hds as [t' Ht'].
  rewrite drop_app_le in Ht' by lia.
  unfold unbordered in Hunb. rewrite forallb_forall in Hunb.
  specialize (Hunb d). rewrite in_seq in Hunb.
  specialize (Hunb ltac:(lia)). apply negb_true_iff in Hunb.
  assert (Hpre : startswith (drop d sub) sub = true); [|congruence].
  apply startswith_app. exists (drop (length sub - d) sub).
  rewrite <- (take_drop (length sub - d) sub) in Ht' at 2.
  rewrite <- app_assoc in Ht'.
  apply app_inj_1 in Ht' as [Heq _].
  - rewrite Heq. by rewrite take_drop.
  - rewrite length_drop, length_take. lia.
Qed.

Lemma occurrences_drop (sub s : pystr) (k : nat) :
  (forall d, (d < k)%nat -> startswith sub (drop d s) = false) ->
  occurrences sub s = occurrences sub (drop k s).
Proof.
  revert s. induction k as [|k IH]; intros s Hno; [done|].
  destruct s as [|c s]; [done|].
  pose proof (Hno 0%nat ltac:(lia)) as H0.
  change (drop 0 (c :: s)) with (c :: s) in H0.
  simpl occurrences at 1. rewrite H0. simpl drop.
  rewrite <- IH; [lia|].
  intros d Hd. apply (Hno (S d)). lia.
Qed.

Lemma count_from_occurrences (sub : pystr) :
  sub <> [] -> unbordered sub = true ->
  forall (s : pystr) (k : nat),
    (forall d, (d < k)%nat -> startswith sub (drop d s) = false) ->
    count_from sub k s = occurrences sub (drop k s).
Proof.
  intros Hne Hunb.
  induction s as [|c s IH]; intros k Hno.
  - by rewrite drop_nil.
  - destruct k as [|k]; simpl count_from.
    + simpl drop. simpl occurrences.
      destruct (startswith sub (c :: s)) eqn:Hs.
      * rewrite IH.
        -- rewrite <- occurrences_drop; [done|].
           intros d Hd.
           apply (unbordered_no_overlap sub (c :: s) (S d) Hunb Hs). lia.
        -- intros d Hd.
           apply (unbordered_no_overlap sub (c :: s) (S d) Hunb Hs). lia.
      * rewrite (IH 0%nat); [done|]. intros d Hd. lia.
    + simpl drop. apply IH. intros d Hd. apply (Hno (S d)). lia.
Qed.

(** For an unbordered, non-empty [sub], [s.count(sub)] is the number of
    places where [sub] occurs in [s]. *)
Lemma count_occurrences (s sub : pystr) :
  sub <> [] -> unbordered sub = true -> count s sub = occurrences sub s.
Proof.
  intros Hne Hunb. unfold count. destruct sub as [|a sub]; [done|].
  rewrite (count_from_occurrences (a :: sub) Hne Hunb s 0); [done|].
  intros d Hd. lia.
Qed.

Lemma repetitive_keywords_unbordered (keyword : pystr) :
  In keyword repetitive_keywords -> keyword <> [] /\ unbordered keyword = true.
Proof.
  unfold repetitive_keywords. simpl.
  intros H.
  repeat (destruct H as [<-|H]; [split; [discriminate | vm_compute; reflexivity]|]).
  destruct H.
Qed.

Lemma count_keyword (s keyword : pystr) :
  In keyword repetitive_keywords -> count s keyword = occurrences keyword s.
Proof.
  intros Hin. destruct (repetitive_keywords_unbordered keyword Hin). by apply count_occurrences.
Qed.

(** *** The guard *)

Lemma max_of_below (x : Z) (xs : list Z) (bound : Z) :
  x < bound -> (forall y, In y xs -> y < bound) -> max_of x xs < bound.
Proof.
  unfold max_of. revert x. induction xs as [|y xs IH]; intros x Hx Hxs; simpl; [done|].
  apply IH.
  - assert (y < bound) by (apply Hxs; by left). lia.
  - intros z Hz. apply Hxs. by right.
Qed.

Section Guard.
Variable lower : pystr -> pystr.
Variable is_space : N -> bool.
Variable digit_value : N -> option Z.

(** The keywords that reach the threshold, as the function collects them. *)
Lemma high_frequency_keyword (recent_text keyword : pystr) :
  In keyword
     (map fst (List.filter (fun kv => 3 <=? kv.2)
        (List.filter (fun kv => 0 <? kv.2)
           (map (fun keyword => (keyword, count recent_text keyword)) repetitive_keywords))))
  <-> In keyword repetitive_keywords /\ 3 <= occurrences keyword recent_text.
Proof.
  rewrite in_map_iff. split.
  - intros [[k c] [Hk Hin]]. simpl in Hk. subst k.
    apply filter_In in Hin as [Hin H3]. apply filter_In in Hin as [Hin _].
    apply in_map_iff in Hin as [k [[= <- <-] Hin]].
    simpl in H3. apply Z.leb_le in H3.
    split; [done|]. by rewrite <- count_keyword.
  - intros [Hin H3]. rewrite <- (count_keyword recent_text) in H3 by done.
    exists (keyword, count recent_text keyword). split; [done|].
    apply filter_In. split; [apply filter_In; split|].
    + apply in_map_iff. by exists keyword.
    + simpl. apply Z.ltb_lt. lia.
    + simpl. by apply Z.leb_le.
Qed.

(** C8.  Over the lower-cased text of the last ten turns: a motif keyword
    that occurs three times or more makes the guard answer true; when
    every motif keyword occurs at most twice and every round number found
    after the word for round is below five, it answers false. *)
Theorem repetition_guard_verdict (scenario_context : pystr) (conversation_history : list pystr) :
  let recent_text := recent_text_of lower conversation_history in
  ((exists keyword, In keyword repetitive_keywords /\ 3 <= occurrences keyword recent_text) ->
   check_repetitive_situation_in_context lower is_space digit_value
     scenario_context conversation_history = true)
  /\ ((forall keyword, In keyword repetitive_keywords -> occurrences keyword recent_text <= 2) ->
      (forall r, In r (round_numbers is_space digit_value recent_text) -> r < 5) ->
      check_repetitive_situation_in_context lower is_space digit_value
        scenario_context conversation_history = false).
Proof.
  intros recent_text. unfold check_repetitive_situation_in_context.
  fold recent_text. cbv zeta.
  pose proof (high_frequency_keyword recent_text) as Hhf.
  destruct (map fst _) as [|k ks] eqn:Ehf.
  - split.
    + intros [keyword Hk]. apply Hhf in Hk. destruct Hk.
    + intros _ Hrounds.
      destruct (contains (u "에피소드") scenario_context); [|done].
      destruct (contains (u "라운드") recent_text); [|done].
      destruct (round_numbers is_space digit_value recent_text) as [|r rs]; [done|].
      assert (max_of r rs < 5).
      { apply max_of_below; [apply Hrounds; by left|].
        intros y Hy. apply Hrounds. by right. }
      destruct (5 <=? max_of r rs) eqn:E; [apply Z.leb_le in E; lia | done].
  - split; [done|].
    intros Hfew _.
    assert (Hk : In k (k :: ks)) by (by left).
    apply Hhf in Hk as [Hin H3]. specialize (Hfew k Hin). lia.
Qed.

End Guard.

Lemma repetition_guard_verdict_witness :
  check_repetitive_situation_in_context ascii_lower ascii_space ascii_digit
    (u "📖 **에피소드 구성**") stuck_turns = true
  /\ check_repetitive_situation_in_context ascii_lower ascii_space ascii_digit
       (u "📖 **에피소드 구성**") fresh_turns = false.
Proof.
  split.
  - apply (proj1 (repetition_guard_verdict ascii_lower ascii_space ascii_digit
                    (u "📖 **에피소드 구성**") stuck_turns)).
    exists (u "던전"). split; [simpl; tauto|].
    apply Z.leb_le. vm_compute. reflexivity.
  - apply (proj2 (repetition_guard_verdict ascii_lower ascii_space ascii_digit
                    (u "📖 **에피소드 구성**") fresh_turns)).
    + intros keyword Hin. unfold repetitive_keywords in Hin. simpl in Hin.
      repeat (destruct Hin as [<-|Hin]; [apply Z.leb_le; vm_compute; reflexivity|]).
      destruct Hin.
    + intros r Hin.
      change (round_numbers ascii_space ascii_digit (recent_text_of ascii_lower fresh_turns))
        with [4] in Hin.
      destruct Hin as [<-|[]]. lia.
Defined.

End Repetition.

(** ** Session record store *)

Module Store.
Import MessageProcessor.
Import StoreSpec.

Lemma temp_path_distinct (user_id : Z) (filename : pystr) :
  (user_id, filename ++ u ".tmp") <> (user_id, filename).
Proof.
  intros [= H]. apply (f_equal length) in H. rewrite length_app in H. simpl in H. lia.
Qed.

Lemma exists_some {A : Type} (x : A) : bool_decide (is_Some (Some x)) = true.
Proof. reflexivity. Qed.

Lemma exists_none {A : Type} : bool_decide (is_Some (@None A)) = false.
Proof. reflexivity. Qed.

Ltac lookups Hne :=
  repeat first
    [ rewrite lookup_insert_eq
    | rewrite lookup_delete_eq
    | rewrite (lookup_insert_ne _ _ _ _ Hne)
    | rewrite (lookup_delete_ne _ _ _ Hne)
    | rewrite (lookup_insert_ne _ _ _ _ (not_eq_sym Hne))
    | rewrite (lookup_delete_ne _ _ _ (not_eq_sym Hne))
    | rewrite exists_some
    | rewrite exists_none ].

(** Runs the calls of [save_session_data] one after the other on a store
    in which the destination [filepath] exists. *)
Ltac run_io Hne Hfile :=
  unfold io_try, mbind, io_bind, ret, pass, mret, io_ret,
    makedirs, access_w, path_exists, write_json, remove, rename, read_json,
    at_site, site_eqb, id;
  repeat (progress (lookups Hne; try rewrite Hfile; cbv beta iota zeta)).

Section Save.
Variables (d : disk) (user_id : Z) (session_type : pystr) (data : json) (old : fcontent).
Hypothesis valid_user : user_id <> 0.
Hypothesis valid_type : session_type <> [].
Hypothesis valid_data : truthy data = true.

Let filepath := (user_id, session_filename session_type).
Let temp_filepath := (user_id, session_filename session_type ++ u ".tmp").

Hypothesis old_file : d !! filepath = Some old.

Ltac start :=
  unfold save_session_data; cbv zeta;
  rewrite (proj2 (Z.eqb_neq _ _) valid_user),
          (bool_decide_eq_false_2 _ valid_type), valid_data;
  cbv beta iota delta [orb negb];
  pose proof (temp_path_distinct user_id (session_filename session_type)) as Hne;
  pose proof old_file as Hfile;
  unfold filepath, temp_filepath in *;
  revert Hne Hfile;
  generalize (user_id, session_filename session_type ++ u ".tmp");
  generalize (user_id, session_filename session_type);
  intros fp tp Hne Hfile.

Lemma save_without_fault :
  save_session_data user_id session_type data NoFault d
  = (<[filepath := Text data]>
       (delete temp_filepath (delete filepath (<[temp_filepath := Text data]> d))),
     Done true).
Proof. start. run_io Hne Hfile. reflexivity. Qed.

Lemma save_rename_raises (err : exn) :
  save_session_data user_id session_type data (Raises RenameTemp err) d
  = (delete temp_filepath (delete filepath (<[temp_filepath := Text data]> d)), Done false).
Proof. start. run_io Hne Hfile. reflexivity. Qed.

Lemma save_killed_before_rename :
  save_session_data user_id session_type data (KilledBefore RenameTemp) d
  = (delete filepath (<[temp_filepath := Text data]> d), Dead).
Proof. start. run_io Hne Hfile. reflexivity. Qed.

Lemma save_remove_raises (err : exn) :
  save_session_data user_id session_type data (Raises RemoveOld err) d
  = (delete temp_filepath (<[temp_filepath := Text data]> d), Done false).
Proof. start. run_io Hne Hfile. reflexivity. Qed.

Lemma save_killed_before_remove :
  save_session_data user_id session_type data (KilledBefore RemoveOld) d
  = (<[temp_filepath := Text data]> d, Dead).
Proof. start. run_io Hne Hfile. reflexivity. Qed.

Lemma save_write_raises (err : exn) :
  save_session_data user_id session_type data (Raises WriteTemp err) d
  = (delete temp_filepath (<[temp_filepath := Partial]> d), Done false).
Proof. start. run_io Hne Hfile. reflexivity. Qed.

Lemma save_killed_before_write :
  save_session_data user_id session_type data (KilledBefore WriteTemp) d = (d, Dead).
Proof. start. run_io Hne Hfile. reflexivity. Qed.

Lemma save_makedirs_raises (s : site) (err : exn) :
  s = MakeBaseDir \/ s = MakeUserDir ->
  save_session_data user_id session_type data (Raises s err) d = (d, Done false).
Proof. intros [-> | ->]; start; run_io Hne Hfile; reflexivity. Qed.

Lemma save_killed_before_makedirs (s : site) :
  s = MakeBaseDir \/ s = MakeUserDir ->
  save_session_data user_id session_type data (KilledBefore s) d = (d, Dead).
Proof. intros [-> | ->]; start; run_io Hne Hfile; reflexivity. Qed.

Lemma save_not_writable :
  save_session_data user_id session_type data NotWritable d = (d, Done false).
Proof. start. run_io Hne Hfile. reflexivity. Qed.

End Save.

Lemma load_session_file_some (d : disk) (user_id : Z) (session_type : pystr) (old : json) :
  load_session_file d user_id session_type = Some old <->
  d !! (user_id, session_filename session_type) = Some (Text old).
Proof.
  unfold load_session_file.
  destruct (d !! (user_id, session_filename session_type)) as [[x|]|]; split; congruence.
Qed.

(** A save without any fault replaces the file and reads the new data back. *)
Lemma save_then_load (d : disk) (user_id : Z) (session_type : pystr) (data old : json) :
  user_id <> 0 -> session_type <> [] -> truthy data = true ->
  load_session_file d user_id session_type = Some old ->
  let result := save_session_data user_id session_type data NoFault d in
  result.2 = Done true /\ load_session_file result.1 user_id session_type = Some data.
Proof.
  intros Hu Ht Hd Hold. apply load_session_file_some in Hold.
  rewrite (save_without_fault d user_id session_type data (Text old) Hu Ht Hd Hold).
  split; [done|]. apply load_session_file_some. simpl. by rewrite lookup_insert_eq.
Qed.

(** A fault that strikes before the old file is removed leaves it as it was. *)
Lemma failure_before_removal_keeps_file (d : disk) (user_id : Z) (session_type : pystr)
    (data old : json) (f : fault) :
  user_id <> 0 -> session_type <> [] -> truthy data = true ->
  load_session_file d user_id session_type = Some old ->
  strikes_before_removal f = true ->
  let result := save_session_data user_id session_type data f d in
  result.2 <> Done true /\ load_session_file result.1 user_id session_type = Some old.
Proof.
  intros Hu Ht Hd Hold Hf. apply load_session_file_some in Hold.
  pose proof (temp_path_distinct user_id (session_filename session_type)) as Hne.
  cbv zeta. rewrite load_session_file_some.
  destruct f as [|s err| |s]; try discriminate Hf; try destruct s; try discriminate Hf.
  - rewrite (save_makedirs_raises d user_id session_type data (Text old) Hu Ht Hd Hold)
      by tauto. done.
  - rewrite (save_makedirs_raises d user_id session_type data (Text old) Hu Ht Hd Hold)
      by tauto. done.
  - rewrite (save_write_raises d user_id session_type data (Text old) Hu Ht Hd Hold).
    split; [done|]. simpl. by rewrite lookup_delete_ne, lookup_insert_ne.
  - rewrite (save_remove_raises d user_id session_type data (Text old) Hu Ht Hd Hold).
    split; [done|]. simpl. by rewrite lookup_delete_ne, lookup_insert_ne.
  - rewrite (save_not_writable d user_id session_type data (Text old) Hu Ht Hd Hold). done.
  - rewrite (save_killed_before_makedirs d user_id session_type data (Text old) Hu Ht Hd Hold)
      by tauto. done.
  - rewrite (save_killed_before_makedirs d user_id session_type data (Text old) Hu Ht Hd Hold)
      by tauto. done.
  - rewrite (save_killed_before_write d user_id session_type data (Text old) Hu Ht Hd Hold).
    done.
  - rewrite (save_killed_before_remove d user_id session_type data (Text old) Hu Ht Hd Hold).
    split; [done|]. simpl. by rewrite lookup_insert_ne.
Qed.

(** C1.  The previously saved file does not survive a failure of the
    rename.  [save_session_data] removes the destination before renaming
    the temporary file onto it: when the rename raises, the old file is
    gone, the handler deletes the temporary file too, the call returns
    false and a later load finds nothing; when the process is stopped
    between the two calls, the old file is gone as well and the new data
    sits in the temporary file only. *)
Theorem failed_rename_loses_saved_file (d : disk) (user_id : Z) (session_type : pystr)
    (data old : json) :
  user_id <> 0 -> session_type <> [] -> truthy data = true ->
  load_session_file d user_id session_type = Some old ->
  (forall err : exn,
     let result := save_session_data user_id session_type data (Raises RenameTemp err) d in
     strikes_before_rename_completes (Raises RenameTemp err) = true
     /\ result.2 = Done false
     /\ load_session_file result.1 user_id session_type = None
     /\ result.1 !! (user_id, session_filename session_type ++ u ".tmp") = None)
  /\ (let result := save_session_data user_id session_type data (KilledBefore RenameTemp) d in
      strikes_before_rename_completes (KilledBefore RenameTemp) = true
      /\ result.2 = Dead
      /\ load_session_file result.1 user_id session_type = None
      /\ result.1 !! (user_id, session_filename session_type ++ u ".tmp") = Some (Text data)).
Proof.
  intros Hu Ht Hd Hold. apply load_session_file_some in Hold.
  pose proof (temp_path_distinct user_id (session_filename session_type)) as Hne.
  split.
  - intros err. cbv zeta.
    rewrite (save_rename_raises d user_id session_type data (Text old) Hu Ht Hd Hold).
    unfold load_session_file. simpl.
    rewrite lookup_delete_eq, lookup_delete_ne, lookup_delete_eq by done. done.
  - cbv zeta.
    rewrite (save_killed_before_rename d user_id session_type data (Text old) Hu Ht Hd Hold).
    unfold load_session_file. simpl.
    rewrite lookup_delete_eq, lookup_delete_ne, lookup_insert_eq by done. done.
Qed.

Lemma failed_rename_loses_saved_file_witness :
  load_session_file disk_with_adventure 99999 (u "모험_생성") = Some old_adventure
  /\ (let result := save_session_data 99999 (u "모험_생성") new_adventure
                      (Raises RenameTemp PermissionError) disk_with_adventure in
      result.2 = Done false
      /\ load_session_file result.1 99999 (u "모험_생성") = None).
Proof.
  split; [reflexivity|].
  pose proof (failed_rename_loses_saved_file disk_with_adventure 99999 (u "모험_생성")
                new_adventure old_adventure) as H.
  destruct H as [H _].
  - lia.
  - discriminate.
  - reflexivity.
  - reflexivity.
  - destruct (H PermissionError) as (_ & Hr & Hl & _). by split.
Defined.

End Store.

(** ** Message splitting *)

Module Split.
Import MessageProcessor.
Import SplitSpec.

Lemma strip_nl_app (a b : pystr) : strip_nl (a ++ b) = strip_nl a ++ strip_nl b.
Proof. unfold strip_nl. apply List.filter_app. Qed.

Lemma strip_nl_no_newline (s : pystr) : no_newline s -> strip_nl s = s.
Proof.
  unfold no_newline, strip_nl. induction s as [|c s IH]; intros H; simpl; [done|].
  destruct (c =? 10)%N eqn:E.
  - apply N.eqb_eq in E. subst c. exfalso. apply H. by left.
  - simpl. f_equal. apply IH. intros Hin. apply H. by right.
Qed.

Lemma split_nl_cons (s : pystr) : exists line lines, split_nl s = line :: lines.
Proof.
  induction s as [|c s IH]; simpl; [by exists [], []|].
  destruct (c =? 10)%N; [by eexists _, _|].
  destruct IH as (line & lines & ->). by eexists _, _.
Qed.

(** The lines hold the text without its newlines. *)
Lemma split_nl_concat (s : pystr) : concat (split_nl s) = strip_nl s.
Proof.
  induction s as [|c s IH]; simpl; [done|].
  destruct (c =? 10)%N eqn:E; simpl; [done|].
  destruct (split_nl_cons s) as (line & lines & Hs).
  rewrite Hs in *. simpl in *. by rewrite IH.
Qed.

Lemma split_nl_no_newline (s : pystr) : Forall no_newline (split_nl s).
Proof.
  induction s as [|c s IH]; simpl.
  - constructor; [|constructor]. by intros [].
  - destruct (c =? 10)%N eqn:E.
    + constructor; [by intros []|done].
    + destruct (split_nl s) as [|line lines]; [repeat constructor|].
      * intros [Hc|[]]. subst c. discriminate E.
      * inversion IH as [|? ? Hline Hlines]; subst. constructor; [|done].
        intros [Hc|Hin]; [subst c; discriminate E | by apply Hline].
Qed.

Lemma split_nl_single (s : pystr) : no_newline s -> split_nl s = [s].
Proof.
  unfold no_newline. induction s as [|c s IH]; intros H; simpl; [done|].
  destruct (c =? 10)%N eqn:E.
  - apply N.eqb_eq in E. subst c. exfalso. apply H. by left.
  - rewrite IH; [done|]. intros Hin. apply H. by right.
Qed.

Lemma split_nl_app (a b : pystr) :
  no_newline a -> split_nl (a ++ nl ++ b) = a :: split_nl b.
Proof.
  unfold no_newline. induction a as [|c a IH]; intros H; [done|].
  change ((c :: a) ++ nl ++ b) with (c :: (a ++ nl ++ b)). cbn [split_nl].
  destruct (c =? 10)%N eqn:E.
  - apply N.eqb_eq in E. subst c. exfalso. apply H. by left.
  - rewrite IH; [done|]. intros Hin. apply H. by right.
Qed.

Lemma split_nl_length (s : pystr) :
  Forall (fun line => (length line <= length s)%nat) (split_nl s).
Proof.
  induction s as [|c s IH]; simpl; [constructor; [simpl; lia | constructor]|].
  destruct (c =? 10)%N.
  - constructor; [simpl; lia|]. eapply Forall_impl; [exact IH|]. simpl. intros; lia.
  - destruct (split_nl s) as [|line lines]; [constructor; [simpl; lia | constructor]|].
    inversion IH as [|? ? Hline Hlines]; subst.
    constructor; [simpl; lia|]. eapply Forall_impl; [exact Hlines|]. simpl. intros; lia.
Qed.

Lemma nonempty_true (s : pystr) : nonempty s = true <-> s <> [].
Proof. destruct s; simpl; split; intros; done. Qed.

Lemma slice_to_from (s : pystr) (i : Z) : slice_to s i ++ slice_from s i = s.
Proof. unfold slice_to, slice_from. apply take_drop. Qed.

(** *** The forced split of one long line *)

Lemma force_split_concat (fuel : nat) (max_length : Z) :
  forall line pieces rest,
    force_split fuel max_length line = Some (pieces, rest) ->
    concat pieces ++ rest = line.
Proof.
  induction fuel as [|fuel IH]; intros line pieces rest; simpl.
  - destruct (len line <=? max_length); [|discriminate]. by intros [= <- <-].
  - destruct (len line <=? max_length); [by intros [= <- <-]|].
    destruct (force_split fuel max_length (slice_from line max_length))
      as [[pieces' rest']|] eqn:E; [|discriminate].
    intros [= <- <-]. simpl. rewrite <- app_assoc, (IH _ _ _ E).
    apply slice_to_from.
Qed.

Lemma force_split_total (max_length : Z) :
  1 <= max_length ->
  forall (fuel : nat) (line : pystr),
    (length line <= fuel)%nat ->
    exists pieces rest,
      force_split fuel max_length line = Some (pieces, rest)
      /\ Forall (fun piece => len piece = max_length) pieces
      /\ len rest <= max_length.
Proof.
  intros Hmax. induction fuel as [|fuel IH]; intros line Hfuel; simpl.
  - destruct line; [|simpl in Hfuel; lia].
    assert ((len [] <=? max_length) = true) as -> by (apply Z.leb_le; unfold len; simpl; lia).
    exists [], []. repeat split; [constructor | unfold len; simpl; lia].
  - destruct (len line <=? max_length) eqn:E.
    + apply Z.leb_le in E. exists [], line. by repeat split.
    + apply Z.leb_gt in E.
      assert (Hidx : slice_index line max_length = Z.to_nat max_length).
      { unfold slice_index. destruct (max_length <? 0) eqn:E0; [apply Z.ltb_lt in E0; lia|].
        f_equal. lia. }
      destruct (IH (slice_from line max_length)) as (pieces & rest & -> & Hp & Hr).
      { unfold slice_from. rewrite Hidx, length_drop. unfold len in E. lia. }
      eexists _, _. split; [reflexivity|]. split; [|done].
      constructor; [|done].
      unfold slice_to. rewrite Hidx. unfold len in *. rewrite length_take. lia.
Qed.

Lemma force_split_fits (fuel : nat) (max_length : Z) (line : pystr) :
  len line <= max_length -> force_split fuel max_length line = Some ([], line).
Proof.
  intros H. apply Z.leb_le in H. destruct fuel; simpl; by rewrite H.
Qed.

Lemma force_split_never_ends (max_length : Z) :
  max_length <= 0 ->
  forall (fuel : nat) (line : pystr),
    max_length < len line -> force_split fuel max_length line = None.
Proof.
  intros Hmax. induction fuel as [|fuel IH]; intros line Hlen; simpl.
  - by rewrite (proj2 (Z.leb_gt _ _) Hlen).
  - rewrite (proj2 (Z.leb_gt _ _) Hlen). rewrite IH; [done|].
    destruct (Z.eq_dec max_length 0) as [->|Hneg].
    + unfold slice_from, slice_index. simpl.
      rewrite Z.min_r, Z.max_r by (unfold len; lia). by simpl.
    + unfold len at 1. lia.
Qed.

(** *** The loop over the lines *)

Lemma strip_nl_nl : strip_nl nl = [].
Proof. reflexivity. Qed.

Lemma split_loop_content (fuel : nat) (max_length : Z) :
  forall lines chunks current_chunk chunks' current_chunk',
    split_loop fuel max_length lines chunks current_chunk = Some (chunks', current_chunk') ->
    strip_nl (concat chunks' ++ current_chunk')
    = strip_nl (concat chunks ++ current_chunk) ++ strip_nl (concat lines).
Proof.
  induction lines as [|line rest IH]; intros chunks cur chunks' cur';
    cbn [split_loop concat].
  - intros [= <- <-]. simpl. by rewrite app_nil_r.
  - rewrite (strip_nl_app line).
    destruct (len cur + len line + 1 <=? max_length).
    + destruct (nonempty cur) eqn:Ecur.
      * intros H. rewrite (IH _ _ _ _ H).
        rewrite !strip_nl_app, strip_nl_nl. simpl. by rewrite !app_assoc.
      * destruct cur; [|discriminate Ecur].
        intros H. rewrite (IH _ _ _ _ H).
        rewrite !strip_nl_app. simpl. by rewrite !app_nil_r, !app_assoc.
    + destruct (nonempty cur) eqn:Ecur.
      * intros H. rewrite (IH _ _ _ _ H).
        rewrite concat_app. simpl. rewrite app_nil_r.
        rewrite !strip_nl_app. by rewrite !app_assoc.
      * destruct cur; [|discriminate Ecur].
        destruct (force_split fuel max_length line) as [[pieces line']|] eqn:Ef; [|discriminate].
        intros H. rewrite (IH _ _ _ _ H).
        rewrite concat_app, <- app_assoc, (force_split_concat _ _ _ _ _ Ef).
        rewrite !strip_nl_app. simpl. by rewrite !app_nil_r, !app_assoc.
Qed.

Lemma split_loop_total (fuel : nat) (max_length : Z) :
  1 <= max_length ->
  forall lines chunks current_chunk,
    Forall (fun line => (length line <= fuel)%nat) lines ->
    Forall (fun chunk => chunk <> []) chunks ->
    exists chunks' current_chunk',
      split_loop fuel max_length lines chunks current_chunk = Some (chunks', current_chunk')
      /\ Forall (fun chunk => chunk <> []) chunks'.
Proof.
  intros Hmax. induction lines as [|line rest IH]; intros chunks cur Hlines Hchunks; simpl.
  - by eexists _, _.
  - inversion Hlines as [|? ? Hline Hrest]; subst.
    destruct (len cur + len line + 1 <=? max_length).
    + destruct (nonempty cur); by apply IH.
    + destruct (nonempty cur) eqn:Ecur.
      * apply IH; [done|]. apply Forall_app. split; [done|].
        constructor; [|constructor]. by apply nonempty_true.
      * destruct (force_split_total max_length Hmax fuel line Hline)
          as (pieces & line' & -> & Hpieces & _).
        apply IH; [done|]. apply Forall_app. split; [done|].
        eapply Forall_impl; [exact Hpieces|]. simpl.
        intros piece Hp ->. unfold len in Hp. simpl in Hp. lia.
Qed.

Lemma split_loop_bound (fuel : nat) (max_length : Z) :
  forall lines chunks current_chunk,
    Forall (fun line => len line <= max_length) lines ->
    Forall (fun chunk => len chunk <= max_length) chunks ->
    len current_chunk <= max_length ->
    exists chunks' current_chunk',
      split_loop fuel max_length lines chunks current_chunk = Some (chunks', current_chunk')
      /\ Forall (fun chunk => len chunk <= max_length) chunks'
      /\ len current_chunk' <= max_length.
Proof.
  induction lines as [|line rest IH]; intros chunks cur Hlines Hchunks Hcur; simpl.
  - by eexists _, _.
  - inversion Hlines as [|? ? Hline Hrest]; subst.
    destruct (len cur + len line + 1 <=? max_length) eqn:Efit.
    + apply Z.leb_le in Efit.
      destruct (nonempty cur); apply IH; try done.
      unfold len in *. rewrite !length_app. simpl. lia.
    + destruct (nonempty cur) eqn:Ecur.
      * apply IH; try done. apply Forall_app. split; [done|]. by constructor.
      * rewrite (force_split_fits fuel max_length line Hline).
        apply IH; try done. by rewrite app_nil_r.
Qed.

(** *** The whole function *)

(** For a limit of at least one code point the call returns; newlines
    aside, the chunks hold exactly the code points of the text in their
    order, and no chunk of a non-empty text is empty. *)
Theorem split_long_message_keeps_text (text : pystr) (max_length : Z) :
  1 <= max_length ->
  exists chunks,
    split_long_message text max_length = Some chunks
    /\ strip_nl (concat chunks) = strip_nl text
    /\ (text <> [] -> Forall (fun chunk => chunk <> []) chunks).
Proof.
  intros Hmax. unfold split_long_message, split_long_message_fuel.
  destruct (len text <=? max_length).
  - exists [text]. split; [done|]. simpl. rewrite app_nil_r. split; [done|].
    intros Hne. by constructor.
  - destruct (split_loop_total (length text) max_length Hmax (split_nl text) [] []
                (split_nl_length text) ltac:(constructor))
      as (chunks & cur & Hloop & Hne).
    rewrite Hloop.
    pose proof (split_loop_content _ _ _ _ _ _ _ Hloop) as Hc.
    rewrite split_nl_concat in Hc. simpl in Hc.
    assert (Hstrip : strip_nl (strip_nl text) = strip_nl text).
    { apply strip_nl_no_newline. unfold no_newline, strip_nl.
      rewrite filter_In. intros [_ H]. discriminate H. }
    rewrite Hstrip in Hc.
    destruct (nonempty cur) eqn:Ecur.
    + eexists. split; [reflexivity|].
      rewrite concat_app. simpl. rewrite app_nil_r. split; [done|].
      intros _. apply Forall_app. split; [done|].
      constructor; [|constructor]. by apply nonempty_true.
    + destruct cur; [|discriminate Ecur]. rewrite app_nil_r in Hc.
      eexists. by repeat split.
Qed.

Lemma split_long_message_keeps_text_witness :
  exists chunks,
    split_long_message long_reply 12 = Some chunks
    /\ strip_nl (concat chunks) = strip_nl long_reply
    /\ (long_reply <> [] -> Forall (fun chunk => chunk <> []) chunks).
Proof. apply (split_long_message_keeps_text long_reply 12). lia. Defined.

(** When no line of the text is longer than the limit, no chunk is. *)
Theorem split_long_message_bound (text : pystr) (max_length : Z) :
  Forall (fun line => len line <= max_length) (split_nl text) ->
  exists chunks,
    split_long_message text max_length = Some chunks
    /\ Forall (fun chunk => len chunk <= max_length) chunks.
Proof.
  intros Hlines. unfold split_long_message, split_long_message_fuel.
  destruct (len text <=? max_length) eqn:E.
  - apply Z.leb_le in E. exists [text]. split; [done|]. by constructor.
  - assert (Hmax : 0 <= max_length).
    { destruct (split_nl_cons text) as (line & lines & Hs). rewrite Hs in Hlines.
      inversion Hlines; subst. unfold len in *. lia. }
    destruct (split_loop_bound (length text) max_length (split_nl text) [] [] Hlines
                ltac:(constructor) ltac:(unfold len; simpl; lia))
      as (chunks & cur & -> & Hchunks & Hcur).
    destruct (nonempty cur).
    + eexists. split; [reflexivity|]. apply Forall_app. split; [done|]. by constructor.
    + by eexists.
Qed.

Lemma split_long_message_bound_witness :
  exists chunks,
    split_long_message long_reply 30 = Some chunks
    /\ Forall (fun chunk => len chunk <= 30) chunks.
Proof.
  apply (split_long_message_bound long_reply 30).
  vm_compute. repeat constructor; discriminate.
Defined.

(** A line longer than the limit is cut into pieces only when it opens a
    chunk.  When it follows a chunk that is not empty it is emitted whole,
    longer than the limit. *)
Theorem split_long_message_overlong_line (a b : pystr) (max_length : Z) :
  no_newline a -> no_newline b ->
  1 <= len a <= max_length ->
  max_length < len b ->
  split_long_message (a ++ nl ++ b) max_length = Some [a; b].
Proof.
  intros Ha Hb Hla Hlb. unfold split_long_message, split_long_message_fuel.
  assert (Hlen : len (a ++ nl ++ b) = len a + 1 + len b).
  { unfold len. rewrite !length_app. simpl. lia. }
  rewrite (proj2 (Z.leb_gt _ _)) by lia.
  rewrite (split_nl_app a b Ha), (split_nl_single b Hb).
  assert (Hna : nonempty a = true).
  { apply nonempty_true. intros ->. unfold len in Hla. simpl in Hla. lia. }
  assert (Hnb : nonempty b = true).
  { apply nonempty_true. intros ->. unfold len in Hlb. simpl in Hlb. lia. }
  simpl split_loop.
  change (len []) with 0.
  destruct (0 + len a + 1 <=? max_length).
  - rewrite (proj2 (Z.leb_gt _ _)) by lia. by rewrite Hna, Hnb.
  - rewrite (force_split_fits _ _ _ (proj2 Hla)).
    rewrite (proj2 (Z.leb_gt _ _)) by lia. by rewrite Hna, Hnb.
Qed.

Lemma split_long_message_overlong_line_witness :
  split_long_message (u "문이 열립니다." ++ nl ++ u "안쪽에서 차가운 바람이 불어오고 횃불이 흔들립니다.") 12
  = Some [u "문이 열립니다."; u "안쪽에서 차가운 바람이 불어오고 횃불이 흔들립니다."]
  /\ 12 < len (u "안쪽에서 차가운 바람이 불어오고 횃불이 흔들립니다.").
Proof.
  split; [|reflexivity].
  apply (split_long_message_overlong_line (u "문이 열립니다.")
           (u "안쪽에서 차가운 바람이 불어오고 횃불이 흔들립니다.") 12).
  - vm_compute. intuition discriminate.
  - vm_compute. intuition discriminate.
  - vm_compute. split; discriminate.
  - reflexivity.
Defined.

(** With a limit of zero or less the inner loop never shortens a line that
    is longer than the limit: on a one-line text the call does not return,
    whatever the number of rounds allowed. *)
Theorem split_long_message_never_returns (text : pystr) (max_length : Z) :
  max_length <= 0 ->
  no_newline text ->
  max_length < len text ->
  forall fuel : nat, split_long_message_fuel fuel text max_length = None.
Proof.
  intros Hmax Hnl Hlen fuel. unfold split_long_message_fuel.
  rewrite (proj2 (Z.leb_gt _ _) Hlen).
  rewrite (split_nl_single text Hnl). simpl split_loop.
  change (len []) with 0.
  rewrite (proj2 (Z.leb_gt _ _)) by (unfold len; lia).
  by rewrite (force_split_never_ends max_length Hmax fuel text Hlen).
Qed.

Lemma split_long_message_never_returns_witness :
  split_long_message_fuel 1000 (u "안녕하세요") 0 = None.
Proof.
  refine (split_long_message_never_returns (u "안녕하세요") 0 _ _ _ 1000%nat).
  - lia.
  - vm_compute. intuition discriminate.
  - reflexivity.
Defined.

End Split.

(** ** More on the context budgeter *)

Module BudgetFacts.
Import MessageProcessor.
Import BudgetSpec.
Import Budget.

(** A text longer than [n] is cut to its first [n] code points followed by
    the marker, or, when the end is kept, to the marker followed by its
    last [n] code points; either way the result has [n + 17] code points.
    A text that fits comes back as it is. *)
Theorem truncate_text_safely_keeps (text : pystr) (n : Z) :
  0 < n ->
  (len text <= n -> forall preserve_end, truncate_text_safely text n preserve_end = text)
  /\ (n < len text ->
      truncate_text_safely text n false = take (Z.to_nat n) text ++ tail_elision
      /\ truncate_text_safely text n true
         = head_elision ++ drop (length text - Z.to_nat n) text
      /\ len (truncate_text_safely text n false) = n + 17
      /\ len (truncate_text_safely text n true) = n + 17).
Proof.
  intros Hn. split.
  - intros Hfit preserve_end. unfold truncate_text_safely.
    by rewrite (proj2 (Z.leb_le _ _) Hfit).
  - intros Hlong.
    split; [|split; [|split]].
    + unfold truncate_text_safely. rewrite (proj2 (Z.leb_gt _ _) Hlong).
      unfold slice_to, slice_index.
      rewrite (proj2 (Z.ltb_ge _ _)) by lia.
      do 3 f_equal. lia.
    + unfold truncate_text_safely. rewrite (proj2 (Z.leb_gt _ _) Hlong).
      unfold slice_from, slice_index.
      rewrite (proj2 (Z.ltb_lt _ _)) by lia.
      do 2 f_equal. unfold len in *. lia.
    + apply len_truncate_head. lia.
    + apply len_truncate_tail. lia.
Qed.

Lemma truncate_text_safely_keeps_witness :
  truncate_text_safely (u "지금까지의 상황 요약: 일행은 숲으로 들어갔다") 8 false
  = u "지금까지의 상황" ++ tail_elision
  /\ truncate_text_safely (u "지금까지의 상황 요약: 일행은 숲으로 들어갔다") 8 true
     = head_elision ++ u "숲으로 들어갔다".
Proof.
  destruct (truncate_text_safely_keeps (u "지금까지의 상황 요약: 일행은 숲으로 들어갔다") 8)
    as [_ H]; [lia|].
  destruct H as (H1 & H2 & _); [reflexivity|].
  split; [exact H1 | exact H2].
Defined.

(** No call makes a text longer by more than one marker. *)
Lemma truncate_text_safely_growth (text : pystr) (n : Z) (preserve_end : bool) :
  len (truncate_text_safely text n preserve_end) <= len text + 17.
Proof.
  unfold truncate_text_safely.
  destruct (len text <=? n); [lia|].
  destruct preserve_end; rewrite len_app.
  - rewrite len_head_elision. unfold slice_from, len. rewrite length_drop. lia.
  - rewrite len_tail_elision. unfold slice_to, len. rewrite length_take. lia.
Qed.

(** A block is dropped only when the budget is used up: when fewer blocks
    come out than went in, the blocks that came out total at least the
    budget. *)
Lemma optimize_loop_drops_when_exhausted (max_total_length n_parts : Z) (parts : list pystr) :
  forall remaining,
    (length (optimize_loop max_total_length n_parts parts remaining).1 < length parts)%nat ->
    remaining <= sum_len (optimize_loop max_total_length n_parts parts remaining).1.
Proof.
  induction parts as [|part_str rest IH]; intros remaining Hshort.
  - simpl in Hshort. lia.
  - simpl in *.
    destruct (remaining <=? 0) eqn:Er; [apply Z.leb_le in Er; simpl; lia|].
    match type of Hshort with context [if ?c then _ else _] => destruct c end.
    + specialize (IH (remaining -
        len (truncate_text_safely part_str
               (Z.min (Z.min (allocated_length max_total_length n_parts part_str) remaining)
                      (len part_str)) (keeps_end part_str)))).
      destruct (optimize_loop _ _ rest _) as [out log]. simpl in *.
      specialize (IH ltac:(lia)). lia.
    + specialize (IH (remaining - len part_str)).
      destruct (optimize_loop _ _ rest _) as [out log]. simpl in *.
      specialize (IH ltac:(lia)). lia.
Qed.

(** Blocks are dropped only when the budget is used up.  When the result
    has fewer blocks than the input, the input was over the budget and the
    blocks kept already fill it. *)
Theorem optimize_context_parts_drops_when_exhausted
    (context_parts : list pystr) (max_total_length : Z) :
  let out := optimize_context_parts context_parts max_total_length in
  (length out < length context_parts)%nat ->
  max_total_length < sum_len context_parts /\ max_total_length <= sum_len out.
Proof.
  intros out Hshort. subst out.
  unfold optimize_context_parts, optimize_context in *.
  destruct context_parts as [|part_str rest] eqn:Eparts; [simpl in Hshort; lia|].
  rewrite <- Eparts in *.
  destruct (is_oversized (check_context_size context_parts max_total_length)) eqn:Eover.
  - simpl negb in *. cbv iota in *. split.
    + simpl in Eover. by apply Z.ltb_lt.
    + by apply optimize_loop_drops_when_exhausted.
  - simpl in Hshort. lia.
Qed.

Lemma optimize_context_parts_drops_when_exhausted_witness :
  60 < sum_len example_parts
  /\ 60 <= sum_len (optimize_context_parts example_parts 60).
Proof.
  apply (optimize_context_parts_drops_when_exhausted example_parts 60).
  vm_compute. lia.
Defined.

(** No emitted block is longer than the input block at its position by
    more than one marker, within budget or not. *)
Theorem optimize_context_parts_growth (context_parts : list pystr) (max_total_length : Z)
    (i : nat) (block : pystr) :
  optimize_context_parts context_parts max_total_length !! i = Some block ->
  exists part_str,
    context_parts !! i = Some part_str /\ len block <= len part_str + 17.
Proof.
  unfold optimize_context_parts, optimize_context.
  destruct context_parts as [|part_str rest] eqn:Eparts; [done|].
  rewrite <- Eparts.
  destruct (negb (is_oversized (check_context_size context_parts max_total_length))).
  - simpl. intros H. exists block. split; [done | lia].
  - intros H.
    destruct (optimize_loop_blocks _ _ _ _ _ _ H) as (p & Hp & [->|[n ->]]).
    + exists p. split; [done | lia].
    + exists p. split; [done|]. apply truncate_text_safely_growth.
Qed.

Lemma optimize_context_parts_growth_witness :
  exists part_str,
    example_parts !! 1%nat = Some part_str
    /\ len (head_elision ++ u " 찾아 숲으로 들어갔다") <= len part_str + 17.
Proof.
  apply (optimize_context_parts_growth example_parts 60 1
           (head_elision ++ u " 찾아 숲으로 들어갔다")).
  vm_compute. reflexivity.
Defined.

(** The character sheet goes first and gets thirty percent: when the
    first block of a list over budget holds the character information and
    is longer than thirty percent of the budget, it is emitted as its first
    [int(max_total_length * 0.3)] code points followed by the marker. *)
Theorem character_block_gets_thirty_percent (part_str : pystr) (rest : list pystr)
    (max_total_length : Z) :
  0 < max_total_length ->
  max_total_length < sum_len (part_str :: rest) ->
  contains (u "플레이어 캐릭터 정보") part_str = true ->
  keeps_end part_str = false ->
  max_total_length * 30 / 100 < len part_str ->
  exists out,
    optimize_context_parts (part_str :: rest) max_total_length
    = (take (Z.to_nat (max_total_length * 30 / 100)) part_str ++ tail_elision) :: out.
Proof.
  intros Hmax Hover Hchar Hkeep Hlong.
  unfold optimize_context_parts, optimize_context.
  assert (Hsize : is_oversized (check_context_size (part_str :: rest) max_total_length) = true)
    by (simpl; by apply Z.ltb_lt).
  rewrite Hsize. simpl negb. cbv iota.
  cbn [optimize_loop].
  assert (Halloc : allocated_length max_total_length
                     (Z.of_nat (length (part_str :: rest))) part_str
                   = max_total_length * 30 / 100).
  { unfold allocated_length, priority_keywords. cbn [first_priority]. rewrite Hchar.
    apply Z.quot_div_nonneg; lia. }
  rewrite Halloc.
  rewrite (proj2 (Z.leb_gt _ _) Hmax).
  assert (Hle : 0 <= max_total_length * 30 / 100 <= max_total_length).
  { split; [apply Z.div_pos; lia|]. apply Z.div_le_upper_bound; lia. }
  replace (Z.min (Z.min (max_total_length * 30 / 100) max_total_length) (len part_str))
    with (max_total_length * 30 / 100) by lia.
  rewrite (proj2 (Z.ltb_lt _ _) Hlong). rewrite Hkeep.
  destruct (optimize_loop _ _ rest _) as [out log] eqn:Erest.
  exists out. simpl. f_equal.
  unfold truncate_text_safely. rewrite (proj2 (Z.leb_gt _ _) Hlong).
  unfold slice_to, slice_index.
  rewrite (proj2 (Z.ltb_ge _ _)) by lia.
  do 3 f_equal. lia.
Qed.

Lemma character_block_gets_thirty_percent_witness :
  exists out,
    optimize_context_parts example_parts 60
    = (u "플레이어 캐릭터 정보: 이름 아리" ++ tail_elision) :: out.
Proof.
  destruct (character_block_gets_thirty_percent
              (u "플레이어 캐릭터 정보: 이름 아리아, 직업 도적, 레벨 3, 장비 단검과 가죽 갑옷")
              [ u "지금까지의 상황 요약: 일행은 마을 촌장의 의뢰로 사라진 아이들을 찾아 숲으로 들어갔다";
                u "현재 세션 안내: 모험을 진행하세요" ] 60) as [out Hout].
  - lia.
  - vm_compute. reflexivity.
  - vm_compute. reflexivity.
  - vm_compute. reflexivity.
  - vm_compute. reflexivity.
  - exists out. exact Hout.
Defined.

End BudgetFacts.

(** ** Session flow *)

Module FlowFacts.
Import MessageProcessor.

(** Every session name, known or not, leads to play within six steps, and
    play leads to itself; from character creation it takes all six. *)
Theorem get_next_session_reaches_play :
  (forall current_session : pystr,
     Nat.iter 6 get_next_session current_session = u "모험_진행")
  /\ get_next_session (u "모험_진행") = u "모험_진행"
  /\ Nat.iter 5 get_next_session (u "캐릭터_생성") <> u "모험_진행".
Proof.
  split; [|split; [reflexivity | by vm_compute]].
  intros current_session.
  rewrite Nat.iter_succ_r.
  unfold get_next_session at 2. unfold session_flow. cbn [assoc].
  repeat match goal with
         | |- context [str_eqb ?a current_session] => destruct (str_eqb a current_session)
         end; vm_compute; reflexivity.
Qed.

End FlowFacts.

(** ** More on the detectors *)

Module DetectorFacts.
Import MessageProcessor.
Import DetectorSpec.
Import Repetition.

Lemma keyword_hit_iff (session_type text : pystr) :
  keyword_hit session_type text = true <->
  exists keywords keyword,
    assoc completion_keywords session_type = Some keywords
    /\ In keyword keywords /\ contains keyword text = true.
Proof.
  unfold keyword_hit. rewrite existsb_exists. split.
  - intros (keyword & Hin & Hc).
    destruct (assoc completion_keywords session_type) as [keywords|]; [|destruct Hin].
    by exists keywords, keyword.
  - intros (keywords & keyword & -> & Hin & Hc). by exists keyword.
Qed.

(** The detector answers true in exactly two cases: the message contains
    one of the completion keywords of its session type, or the session
    type has a description and the backend, asked with the judge prompt,
    returns a text that contains the completion marker.  In the first case
    the backend plays no part. *)
Theorem extract_session_completion_info_true_iff
    (llm : pystr -> list pystr -> pystr -> pystr -> res pystr)
    (text session_type : pystr) (conversation_history : list pystr) :
  extract_session_completion_info llm text session_type conversation_history = Val true <->
  (exists keywords keyword,
     assoc completion_keywords session_type = Some keywords
     /\ In keyword keywords /\ contains keyword text = true)
  \/ (exists description answer,
        assoc session_descriptions session_type = Some description
        /\ llm (completion_prompt session_type description
                  (join nl (last_n 5 conversation_history)) text)
               [] (u "기타") [] = Val answer
        /\ contains (u "완료") answer = true).
Proof.
  rewrite <- keyword_hit_iff.
  unfold extract_session_completion_info.
  destruct (keyword_hit session_type text); [split; [by left | done]|].
  destruct (assoc session_descriptions session_type) as [description|].
  - cbv zeta. unfold try_except.
    destruct (llm _ _ _ _) as [answer|err] eqn:Ellm.
    + rewrite bind_val. split.
      * intros [= H]. right. by exists description, answer.
      * intros [H|(d & a & [= <-] & Ha & H)]; [done|].
        rewrite Ellm in Ha. injection Ha as <-. simpl. by rewrite H.
    + rewrite bind_raise. split; [done|].
      intros [H|(d & a & [= <-] & Ha & _)]; [done|].
      rewrite Ellm in Ha. discriminate Ha.
  - split; [done|]. intros [H|(d & a & H & _)]; done.
Qed.

Lemma tables_share_keys (session_type : pystr) :
  assoc session_descriptions session_type = None ->
  assoc completion_keywords session_type = None.
Proof.
  unfold session_descriptions, completion_keywords. cbn [assoc].
  repeat match goal with
         | |- context [str_eqb ?a session_type] => destruct (str_eqb a session_type)
         end; done.
Qed.

(** A session type outside the six of the tables never completes: no
    keyword is tried and the backend is not asked. *)
Theorem unknown_session_never_complete
    (llm : pystr -> list pystr -> pystr -> pystr -> res pystr)
    (text session_type : pystr) (conversation_history : list pystr) :
  ~ In session_type (map fst session_descriptions) ->
  extract_session_completion_info llm text session_type conversation_history = Val false.
Proof.
  intros Hnot.
  assert (Hd : assoc session_descriptions session_type = None).
  { unfold session_descriptions in *. cbn [assoc map fst] in *.
    repeat match goal with
           | |- context [str_eqb ?a session_type] =>
               destruct (str_eqb a session_type) eqn:?
           end; try done;
      exfalso; apply Hnot;
      repeat match goal with
             | H : str_eqb _ _ = true |- _ => apply str_eqb_eq in H
             end; subst; simpl; tauto. }
  unfold extract_session_completion_info, keyword_hit.
  by rewrite (tables_share_keys _ Hd), Hd.
Qed.

Lemma unknown_session_never_complete_witness :
  extract_session_completion_info (fun _ _ _ _ => Val (u "완료")) (u "완료") (u "모험_진행")
    [u "사용자: 완료"] = Val false.
Proof.
  apply (unknown_session_never_complete (fun _ _ _ _ => Val (u "완료")) (u "완료")
           (u "모험_진행") [u "사용자: 완료"]).
  vm_compute. intuition discriminate.
Defined.

(** *** Repetition guard *)


Lemma last_n_app {A : Type} (n : nat) (older recent : list A) :
  (n <= length recent)%nat -> last_n n (older ++ recent) = last_n n recent.
Proof.
  intros Hn. unfold last_n. rewrite length_app.
  rewrite drop_app_ge by lia. f_equal. lia.
Qed.

Section Guard.
Variable lower : pystr -> pystr.
Variable is_space : N -> bool.
Variable digit_value : N -> option Z.



(** Only the last ten turns count: turns older than that change nothing. *)
Theorem repetition_guard_ignores_older_turns (scenario_context : pystr)
    (older recent : list pystr) :
  (10 <= length recent)%nat ->
  check_repetitive_situation_in_context lower is_space digit_value
    scenario_context (older ++ recent)
  = check_repetitive_situation_in_context lower is_space digit_value
      scenario_context recent.
Proof.
  intros Hlen. unfold check_repetitive_situation_in_context, recent_text_of.
  by rewrite (last_n_app 10 older recent Hlen).
Qed.

End Guard.

Lemma repetition_guard_ignores_older_turns_witness :
  check_repetitive_situation_in_context ascii_lower ascii_space ascii_digit
    (u "에피소드") (stuck_turns ++ repeat (u "사용자: 숲길을 걷는다") 10)
  = check_repetitive_situation_in_context ascii_lower ascii_space ascii_digit
      (u "에피소드") (repeat (u "사용자: 숲길을 걷는다") 10).
Proof.
  apply (repetition_guard_ignores_older_turns ascii_lower ascii_space ascii_digit
           (u "에피소드") stuck_turns (repeat (u "사용자: 숲길을 걷는다") 10)).
  simpl. lia.
Defined.

End DetectorFacts.

(** ** More on the session record store *)

Module StoreFacts.
Import MessageProcessor.
Import StoreSpec.
Import Store.

(** What every run of [save_session_data] on valid arguments has in
    common, whatever goes wrong. *)
Lemma save_session_data_cases (d : disk) (user_id : Z) (session_type : pystr)
    (data : json) (f : fault) :
  user_id <> 0 -> session_type <> [] -> truthy data = true ->
  let filepath := (user_id, session_filename session_type) in
  let temp_filepath := (user_id, session_filename session_type ++ u ".tmp") in
  let result := save_session_data user_id session_type data f d in
  (forall path, path <> filepath -> path <> temp_filepath -> result.1 !! path = d !! path)
  /\ (result.2 = Done true -> result.1 !! filepath = Some (Text data)
                              /\ result.1 !! temp_filepath = None)
  /\ (forall err, result.2 <> Exn err)
  /\ (result.2 = Dead -> exists s, f = KilledBefore s)
  /\ (f = NoFault -> result.2 = Done true).
Proof.
  intros Hu Ht Hd. cbv zeta.
  unfold save_session_data. cbv zeta.
  rewrite (proj2 (Z.eqb_neq _ _) Hu), (bool_decide_eq_false_2 _ Ht), Hd.
  cbv beta iota delta [orb negb].
  pose proof (temp_path_distinct user_id (session_filename session_type)) as Hne.
  revert Hne.
  generalize (user_id, session_filename session_type ++ u ".tmp").
  generalize (user_id, session_filename session_type).
  intros fp tp Hne.
  destruct (d !! fp) as [old|] eqn:Hfile;
    (destruct f as [|s err| |s]; [|destruct s| |destruct s]);
    match goal with
    | |- context [fst ?run] => destruct run as [d' outcome] eqn:E
    end;
    revert E; run_io Hne Hfile; intros [= <- <-]; cbn [fst snd];
    (split; [intros path H1 H2;
             repeat first [ rewrite lookup_insert_ne by congruence
                          | rewrite lookup_delete_ne by congruence ];
             reflexivity|]);
    (split; [first [ discriminate
                   | intros _; lookups Hne; split; reflexivity ]|]);
    (split; [discriminate|]);
    (split; [first [discriminate | intros _; by eexists]|]);
    first [discriminate | reflexivity].
Qed.

Lemma save_session_data_invalid (d : disk) (user_id : Z) (session_type : pystr)
    (data : json) (f : fault) :
  user_id = 0 \/ session_type = [] \/ truthy data = false ->
  save_session_data user_id session_type data f d = (d, Done false).
Proof.
  intros H. unfold save_session_data.
  assert (E : (user_id =? 0) || bool_decide (session_type = []) || negb (truthy data) = true).
  { destruct H as [-> | [-> | ->]]; [done| |].
    - by rewrite orb_true_r.
    - by rewrite orb_true_r. }
  rewrite E. reflexivity.
Qed.



(** A result of true can be trusted under every fault: the file then holds
    the data just passed and the temporary file is gone. *)
Theorem save_success_is_sound (d : disk) (user_id : Z) (session_type : pystr)
    (data : json) (f : fault) :
  let result := save_session_data user_id session_type data f d in
  result.2 = Done true ->
  load_session_file result.1 user_id session_type = Some data
  /\ result.1 !! (user_id, session_filename session_type ++ u ".tmp") = None.
Proof.
  cbv zeta. intros Htrue.
  destruct (Z.eq_dec user_id 0) as [Hu|Hu].
  { rewrite save_session_data_invalid in Htrue by tauto. discriminate Htrue. }
  destruct (decide (session_type = [])) as [Ht|Ht].
  { rewrite save_session_data_invalid in Htrue by tauto. discriminate Htrue. }
  destruct (truthy data) eqn:Hd.
  - destruct (save_session_data_cases d user_id session_type data f Hu Ht Hd)
      as (_ & Hsound & _).
    cbv zeta in Hsound. destruct (Hsound Htrue) as [Hfile Htemp].
    split; [|done]. by apply load_session_file_some.
  - rewrite save_session_data_invalid in Htrue by tauto. discriminate Htrue.
Qed.

Lemma save_success_is_sound_witness :
  load_session_file
    (save_session_data 99999 (u "모험_생성") new_adventure (Raises CleanupTemp OSError)
       disk_with_adventure).1 99999 (u "모험_생성") = Some new_adventure
  /\ (save_session_data 99999 (u "모험_생성") new_adventure (Raises CleanupTemp OSError)
        disk_with_adventure).1 !! (99999, session_filename (u "모험_생성") ++ u ".tmp") = None.
Proof.
  apply (save_success_is_sound disk_with_adventure 99999 (u "모험_생성") new_adventure
           (Raises CleanupTemp OSError)).
  vm_compute. reflexivity.
Defined.






Lemma failure_before_removal_keeps_file_witness :
  let result := save_session_data 99999 (u "모험_생성") new_adventure
                  (Raises WriteTemp OSError) disk_with_adventure in
  result.2 <> Done true
  /\ load_session_file result.1 99999 (u "모험_생성") = Some old_adventure.
Proof.
  apply (failure_before_removal_keeps_file disk_with_adventure 99999 (u "모험_생성")
           new_adventure old_adventure (Raises WriteTemp OSError)).
  - lia.
  - discriminate.
  - reflexivity.
  - reflexivity.
  - reflexivity.
Defined.

End StoreFacts.

(** ** More on the stage model *)

Module StageFacts.
Import ScenarioManager.
Import ScenarioStage.
Import StageSpec.
Import StageMoreSpec.
Import StageModel.

Lemma numbered_ids (next : Z) (payloads : list (list (pystr * json))) :
  map item_id (numbered next payloads)
  = map (fun i => Some (JNum i)) (seqZ next (Z.of_nat (length payloads))).
Proof.
  revert next. induction payloads as [|p ps IH]; intros next; [done|].
  cbn [numbered map length].
  rewrite Nat2Z.inj_succ, seqZ_cons by lia.
  cbn [map]. f_equal.
  - unfold with_id, item_id. apply dict_get_set_eq.
  - rewrite IH. do 2 f_equal; lia.
Qed.

(** Appending keeps the ids dense.  On a record whose list holds [items],
    any number of [add_*] calls whose writes go through store the payloads
    behind the items already there, in call order, numbered from the
    length of the list plus one without gaps. *)
Theorem add_items_dense_ids (key : pystr) (calls : list (env * list (pystr * json))) :
  forall (st : store) (user_id : Z) (items : list json),
    has_items st user_id key items ->
    Forall (fun call => disk_ok call.1 = true) calls ->
    exists st' : store,
      add_items key st user_id calls = Val st'
      /\ stored_items st' user_id key
         = items ++ numbered (Z.of_nat (length items) + 1) (map snd calls)
      /\ map item_id (numbered (Z.of_nat (length items) + 1) (map snd calls))
         = map (fun i => Some (JNum i))
               (seqZ (Z.of_nat (length items) + 1) (Z.of_nat (length calls))).
Proof.
  induction calls as [|[e item_data] calls IH]; intros st user_id items Hitems Hok.
  - exists st. split; [done|]. split; [|done].
    rewrite (has_items_stored _ _ _ _ Hitems). simpl. by rewrite app_nil_r.
  - inversion Hok as [|? ? He Hrest]; subst. simpl in He.
    destruct (add_item_has_items key e st user_id item_data items He Hitems)
      as (st1 & E1 & I1).
    destruct (IH st1 user_id _ I1 Hrest) as (st' & E' & Hstored & _).
    exists st'. cbn [add_items]. rewrite E1, bind_val. split; [done|].
    split.
    + rewrite Hstored, length_app. cbn [length map numbered snd].
      rewrite <- app_assoc. cbn [app]. do 3 f_equal. lia.
    + rewrite numbered_ids, length_map. done.
Qed.

Lemma add_items_dense_ids_witness :
  exists st' : store,
    add_items (u "episodes") (init_scenario_creation clock0 ∅ 99999).1 99999
      [ (clock0, [(u "title", JStr (u "사라진 아이들"))]);
        (clock0, [(u "title", JStr (u "숲속의 오두막"))]) ] = Val st'
    /\ stored_items st' 99999 (u "episodes")
       = [] ++ numbered (Z.of_nat (length (@nil json)) + 1)
                 (map snd [ (clock0, [(u "title", JStr (u "사라진 아이들"))]);
                            (clock0, [(u "title", JStr (u "숲속의 오두막"))]) ])
    /\ map item_id (numbered (Z.of_nat (length (@nil json)) + 1)
                      (map snd [ (clock0, [(u "title", JStr (u "사라진 아이들"))]);
                                 (clock0, [(u "title", JStr (u "숲속의 오두막"))]) ]))
       = map (fun i => Some (JNum i)) (seqZ (Z.of_nat (length (@nil json)) + 1) 2).
Proof.
  apply (add_items_dense_ids (u "episodes")
           [ (clock0, [(u "title", JStr (u "사라진 아이들"))]);
             (clock0, [(u "title", JStr (u "숲속의 오두막"))]) ]
           (init_scenario_creation clock0 ∅ 99999).1 99999 []).
  - apply has_items_init; [reflexivity | simpl; tauto].
  - repeat constructor.
Defined.



Lemma set_current_stage_on_record (e : env) (st : store) (user_id : Z) (stage : pystr)
    (o : list (pystr * json)) :
  st !! user_id = Some (JObj o) -> o <> [] -> disk_ok e = true ->
  exists st' : store,
    set_current_stage e st user_id stage = Val st'
    /\ get_current_stage st' user_id = Val (JStr stage)
    /\ stored_scenario st' user_id = stored_scenario st user_id
    /\ (forall other, other <> user_id -> st' !! other = st !! other).
Proof.
  intros Hst Ho Hok. unfold set_current_stage.
  rewrite (load_scenario_some _ _ _ Hst).
  apply truthy_obj in Ho. rewrite Ho.
  simpl py_setitem. rewrite bind_val, save_scenario_dict by done.
  eexists. split; [reflexivity|]. cbn [fst].
  split; [|split].
  - unfold get_current_stage. rewrite load_scenario_insert.
    assert (Ht : truthy (JObj (dict_set (dict_set o (u "current_stage") (JStr stage))
                                 (u "last_updated") (JStr (now e)))) = true)
      by (apply truthy_obj, dict_set_nonempty).
    rewrite Ht. simpl negb. cbv iota.
    rewrite py_get_dict.
    rewrite dict_get_set_ne by (intros H; by vm_compute in H).
    by rewrite dict_get_set_eq.
  - unfold stored_scenario.
    rewrite load_scenario_insert, (load_scenario_some _ _ _ Hst).
    rewrite !dict_get_set_ne by (intros H; by vm_compute in H). done.
  - intros other Hother. by rewrite lookup_insert_ne.
Qed.

(** Setting the stage and reading it back: on a stored record
    [get_current_stage] returns the stage just set; the scenario content
    and the records of other users are as before. *)
Theorem set_then_get_current_stage (e : env) (st : store) (user_id : Z) (stage : pystr)
    (o : list (pystr * json)) :
  st !! user_id = Some (JObj o) -> o <> [] -> disk_ok e = true ->
  exists st' : store,
    set_current_stage e st user_id stage = Val st'
    /\ get_current_stage st' user_id = Val (JStr stage)
    /\ stored_scenario st' user_id = stored_scenario st user_id
    /\ (forall other, other <> user_id -> st' !! other = st !! other).
Proof. apply set_current_stage_on_record. Qed.

Lemma set_then_get_current_stage_witness :
  exists st' : store,
    set_current_stage clock0 store_overview_done 99999 (value EPISODES) = Val st'
    /\ get_current_stage st' 99999 = Val (JStr (value EPISODES))
    /\ stored_scenario st' 99999 = stored_scenario store_overview_done 99999
    /\ (forall other, other <> 99999 -> st' !! other = store_overview_done !! other).
Proof.
  apply (set_then_get_current_stage clock0 store_overview_done 99999 (value EPISODES)
           (match load_scenario store_overview_done 99999 with JObj o => o | _ => [] end)).
  - vm_compute; reflexivity.
  - vm_compute; discriminate.
  - reflexivity.
Defined.

Lemma counted_stage_complete (m : option NpcManager) (st : store) (user_id : Z)
    (o sc : list (pystr * json)) (stage : ScenarioStage.t) (key : pystr) (threshold : Z) :
  st !! user_id = Some (JObj o) -> o <> [] ->
  dict_get o (u "scenario") = Some (JObj sc) ->
  In (stage, key, threshold) counted_stages ->
  is_stage_complete m st user_id (value stage) = count_at_least (JObj sc) key threshold.
Proof.
  intros Hst Ho Hsc Hin. unfold is_stage_complete.
  rewrite (load_scenario_some _ _ _ Hst).
  apply truthy_obj in Ho. rewrite Ho. simpl negb. cbv iota.
  rewrite (py_get_some _ _ _ _ Hsc), bind_val.
  unfold counted_stages in Hin. simpl in Hin.
  destruct Hin as [[= <- <- <-]|[[= <- <- <-]|[[= <- <- <-]|[]]]]; reflexivity.
Qed.

(** The stages counted by records: Episodes and Hints are complete from
    three stored records on, Dungeons from one; below that they are not. *)
Theorem counted_stage_complete_iff (m : option NpcManager) (st : store) (user_id : Z)
    (stage : ScenarioStage.t) (key : pystr) (threshold : Z) (items : list json) :
  In (stage, key, threshold) counted_stages ->
  has_items st user_id key items ->
  is_stage_complete m st user_id (value stage)
  = Val (threshold <=? Z.of_nat (length items)).
Proof.
  intros Hin (o & sc & Hst & Ho & Hsc & Hitems).
  rewrite (counted_stage_complete m st user_id o sc stage key threshold Hst Ho Hsc Hin).
  by apply count_at_least_items.
Qed.

Lemma counted_stage_complete_iff_witness :
  is_stage_complete None store_in_episodes 99999 (value EPISODES)
  = Val (3 <=? Z.of_nat (length (stored_items store_in_episodes 99999 (u "episodes")))).
Proof.
  apply (counted_stage_complete_iff None store_in_episodes 99999 EPISODES (u "episodes") 3
           (stored_items store_in_episodes 99999 (u "episodes"))).
  - simpl. tauto.
  - eexists _, _. split; [vm_compute; reflexivity|].
    split; [discriminate|]. split; vm_compute; reflexivity.
Defined.

(** Nothing is complete where no rule applies: for a user without a
    record every stage is incomplete, and on a stored record every stage
    name other than the five with a rule, Completed among them, is. *)
Theorem no_rule_no_completion (m : option NpcManager) (st : store) (user_id : Z)
    (stage : pystr) :
  st !! user_id = None
  \/ ((exists o, st !! user_id = Some (JObj o)) /\ ~ In stage stages_with_rule) ->
  is_stage_complete m st user_id stage = Val false.
Proof.
  intros [Hnone|[[o Hst] Hstage]]; unfold is_stage_complete.
  - by rewrite (load_scenario_none _ _ Hnone).
  - rewrite (load_scenario_some _ _ _ Hst).
    destruct (truthy (JObj o)); [|done]. simpl negb. cbv iota.
    rewrite py_get_dict, bind_val.
    unfold stages_with_rule in Hstage. cbn [map In] in Hstage.
    repeat match goal with
           | |- context [str_eqb stage ?v] =>
               let E := fresh "E" in
               destruct (str_eqb stage v) eqn:E;
               [apply str_eqb_eq in E; exfalso; apply Hstage; rewrite E; tauto|]
           end.
    reflexivity.
Qed.

Lemma no_rule_no_completion_witness :
  is_stage_complete (Some ready_manager) store_in_episodes 99999 (value COMPLETED) = Val false.
Proof.
  apply (no_rule_no_completion (Some ready_manager) store_in_episodes 99999 (value COMPLETED)).
  right. split.
  - eexists. vm_compute. reflexivity.
  - vm_compute. intuition discriminate.
Defined.

(** A failing NPC subsystem completes nothing and breaks nothing: when
    [load_npcs] raises, the NPC stage is reported incomplete, also for a
    user who has three NPC records of their own. *)
Theorem npc_stage_with_failing_manager (npc_manager : NpcManager) (st : store)
    (user_id : Z) (o : list (pystr * json)) (err : exn) :
  st !! user_id = Some (JObj o) ->
  load_npcs npc_manager user_id = Raise err ->
  is_stage_complete (Some npc_manager) st user_id (value NPCS) = Val false
  /\ is_npc_stage_complete (Some npc_manager) user_id = false.
Proof.
  intros Hst Hraise.
  assert (Hnpc : is_npc_stage_complete (Some npc_manager) user_id = false).
  { unfold is_npc_stage_complete. by rewrite Hraise. }
  split; [|done].
  unfold is_stage_complete. rewrite (load_scenario_some _ _ _ Hst).
  destruct (truthy (JObj o)); [|done]. simpl negb. cbv iota.
  rewrite py_get_dict, bind_val.
  change (str_eqb (value NPCS) (value OVERVIEW)) with false.
  change (str_eqb (value NPCS) (value EPISODES)) with false.
  change (str_eqb (value NPCS) (value NPCS)) with true.
  cbv iota. by rewrite Hnpc.
Qed.

Lemma npc_stage_with_failing_manager_witness :
  (is_stage_complete (Some failing_manager) store_with_npcs 99999 (value NPCS) = Val false
   /\ is_npc_stage_complete (Some failing_manager) 99999 = false)
  /\ is_stage_complete None store_with_npcs 99999 (value NPCS) = Val true.
Proof.
  split; [|vm_compute; reflexivity].
  apply (npc_stage_with_failing_manager failing_manager store_with_npcs 99999
           (match load_scenario store_with_npcs 99999 with JObj o => o | _ => [] end)
           RuntimeError).
  - vm_compute; reflexivity.
  - reflexivity.
Defined.

(** *** Updating the overview *)

Lemma dict_get_absent (d : list (pystr * json)) (k : pystr) :
  k ∉ map fst d -> dict_get d k = None.
Proof.
  unfold dict_get. induction d as [|[k' v'] d IH]; intros H; [done|].
  cbn [assoc]. cbn [map fst] in H. rewrite elem_of_cons in H.
  rewrite str_eqb_neq.
  - apply IH. intros Hk. apply H. by right.
  - intros ->. apply H. by left.
Qed.

(** [d.update(other)]: the keys of [other] take its values, the rest stay. *)
Lemma dict_get_update (other : list (pystr * json)) :
  NoDup (map fst other) ->
  forall (d : list (pystr * json)) (k : pystr),
    dict_get (dict_update d other) k
    = match dict_get other k with
      | Some v => Some v
      | None => dict_get d k
      end.
Proof.
  unfold dict_update.
  induction other as [|[k' v'] other IH]; intros Hnd d k; [done|].
  inversion Hnd as [|? ? Hnotin Hnd']; subst.
  cbn [fold_left fst snd]. rewrite (IH Hnd').
  unfold dict_get at 3. cbn [assoc]. fold (dict_get other k).
  destruct (str_eqb k' k) eqn:E.
  - apply str_eqb_eq in E. subst k'.
    rewrite (dict_get_absent other k Hnotin). apply dict_get_set_eq.
  - destruct (dict_get other k); [done|].
    apply dict_get_set_ne. intros ->. by rewrite str_eqb_refl in E.
Qed.

(** What [update_scenario_overview] leaves in the store, given the record
    it works on. *)
Lemma update_scenario_overview_tail (e : env) (st1 : store) (user_id : Z)
    (overview_data o sc ov : list (pystr * json)) :
  disk_ok e = true ->
  dict_get o (u "scenario") = Some (JObj sc) ->
  dict_get sc (u "overview") = Some (JObj ov) ->
  (scenario ← py_index (JObj o) (u "scenario");
   overview ← py_index scenario (u "overview");
   overview' ← match overview with
               | JObj ov0 => Val (JObj (dict_update ov0 overview_data))
               | _ => Raise AttributeError
               end;
   scenario' ← py_setitem scenario (u "overview") overview';
   scenario_data1 ← py_setitem (JObj o) (u "scenario") scenario';
   scenario_data2 ← py_setitem scenario_data1 (u "progress")
                      (JStr (ScenarioProgress.value ScenarioProgress.IN_PROGRESS));
   mret (save_scenario e st1 user_id scenario_data2).1.1)
  = Val (<[user_id :=
            JObj (dict_set
                    (dict_set
                       (dict_set o (u "scenario")
                          (JObj (dict_set sc (u "overview")
                                   (JObj (dict_update ov overview_data)))))
                       (u "progress")
                       (JStr (ScenarioProgress.value ScenarioProgress.IN_PROGRESS)))
                    (u "last_updated") (JStr (now e)))]> st1).
Proof.
  intros Hok Hsc Hov.
  rewrite (py_index_some _ _ _ Hsc), bind_val. cbv beta.
  rewrite (py_index_some _ _ _ Hov), bind_val. cbv beta.
  rewrite bind_val. cbv beta. unfold py_setitem.
  rewrite !bind_val. cbv beta.
  by rewrite save_scenario_dict.
Qed.

Lemma merged_record_facts (o sc ov overview_data : list (pystr * json)) (stamp : pystr)
    (st1 : store) (user_id : Z) :
  dict_get o (u "scenario") = Some (JObj sc) ->
  let st' := <[user_id :=
            JObj (dict_set
                    (dict_set
                       (dict_set o (u "scenario")
                          (JObj (dict_set sc (u "overview")
                                   (JObj (dict_update ov overview_data)))))
                       (u "progress")
                       (JStr (ScenarioProgress.value ScenarioProgress.IN_PROGRESS)))
                    (u "last_updated") (JStr stamp))]> st1 in
  stored_overview st' user_id = dict_update ov overview_data
  /\ (forall key, key <> u "overview" ->
        dict_get (stored_scenario st' user_id) key = dict_get sc key)
  /\ py_get (load_scenario st' user_id) (u "progress") JNull
     = Val (JStr (ScenarioProgress.value ScenarioProgress.IN_PROGRESS)).
Proof.
  intros Hsc st'. subst st'.
  unfold stored_overview, stored_scenario. rewrite !load_scenario_insert.
  rewrite !(dict_get_set_ne _ (u "last_updated") (u "scenario"))
    by (intros H; by vm_compute in H).
  rewrite !(dict_get_set_ne _ (u "progress") (u "scenario"))
    by (intros H; by vm_compute in H).
  rewrite !dict_get_set_eq. cbv beta iota.
  split; [reflexivity|]. split.
  - intros key Hkey. by rewrite dict_get_set_ne.
  - rewrite py_get_dict.
    rewrite dict_get_set_ne by (intros H; by vm_compute in H).
    by rewrite dict_get_set_eq.
Qed.

(** Updating the overview of a stored record merges: the fields passed
    take their new values, the other overview fields and the rest of the
    scenario stay, and the progress becomes in-progress. *)
Theorem update_scenario_overview_merges (e : env) (st : store) (user_id : Z)
    (overview_data o sc ov : list (pystr * json)) :
  st !! user_id = Some (JObj o) -> o <> [] ->
  dict_get o (u "scenario") = Some (JObj sc) ->
  dict_get sc (u "overview") = Some (JObj ov) ->
  NoDup (map fst overview_data) ->
  disk_ok e = true ->
  exists st' : store,
    update_scenario_overview e st user_id overview_data = Val st'
    /\ (forall k, dict_get (stored_overview st' user_id) k
                  = match dict_get overview_data k with
                    | Some v => Some v
                    | None => dict_get ov k
                    end)
    /\ (forall key, key <> u "overview" ->
          dict_get (stored_scenario st' user_id) key = dict_get sc key)
    /\ py_get (load_scenario st' user_id) (u "progress") JNull
       = Val (JStr (ScenarioProgress.value ScenarioProgress.IN_PROGRESS)).
Proof.
  intros Hst Ho Hsc Hov Hnd Hok.
  unfold update_scenario_overview.
  rewrite (load_scenario_some _ _ _ Hst).
  apply truthy_obj in Ho. rewrite Ho.
  rewrite (update_scenario_overview_tail e st user_id overview_data o sc ov Hok Hsc Hov).
  eexists. split; [reflexivity|].
  destruct (merged_record_facts o sc ov overview_data (now e) st user_id Hsc)
    as (Hov' & Hrest & Hprog).
  split; [|split; [exact Hrest | exact Hprog]].
  intros k. rewrite Hov'. by apply dict_get_update.
Qed.

Lemma update_scenario_overview_merges_witness :
  exists st' : store,
    update_scenario_overview clock0 store_overview_done 99999
      [(u "title", JStr (u "사라진 아이들")); (u "rewards", JStr (u "금화 100닢"))] = Val st'
    /\ (forall k, dict_get (stored_overview st' 99999) k
                  = match dict_get [(u "title", JStr (u "사라진 아이들"));
                                    (u "rewards", JStr (u "금화 100닢"))] k with
                    | Some v => Some v
                    | None => dict_get (stored_overview store_overview_done 99999) k
                    end)
    /\ (forall key, key <> u "overview" ->
          dict_get (stored_scenario st' 99999) key
          = dict_get (stored_scenario store_overview_done 99999) key)
    /\ py_get (load_scenario st' 99999) (u "progress") JNull
       = Val (JStr (ScenarioProgress.value ScenarioProgress.IN_PROGRESS)).
Proof.
  apply (update_scenario_overview_merges clock0 store_overview_done 99999
           [(u "title", JStr (u "사라진 아이들")); (u "rewards", JStr (u "금화 100닢"))]
           (match load_scenario store_overview_done 99999 with JObj o => o | _ => [] end)
           (stored_scenario store_overview_done 99999)
           (stored_overview store_overview_done 99999)).
  - vm_compute; reflexivity.
  - vm_compute; discriminate.
  - vm_compute; reflexivity.
  - vm_compute; reflexivity.
  - apply (bool_decide_unpack _). vm_compute. reflexivity.
  - reflexivity.
Defined.

(** The record a first call creates, as a dict with its overview. *)
Lemma init_record_shape (e : env) (user_id : Z) :
  disk_ok e = true ->
  exists o sc ov,
    (init_scenario_creation e ∅ user_id).2 = JObj o
    /\ o <> []
    /\ dict_get o (u "scenario") = Some (JObj sc)
    /\ dict_get sc (u "overview") = Some (JObj ov).
Proof.
  intros Hok. unfold init_scenario_creation.
  rewrite save_scenario_dict by done. cbn [snd fst].
  eexists _, _, _. split; [reflexivity|].
  split; [apply dict_set_nonempty|]. split; reflexivity.
Qed.

Lemma overview_complete_when_four (m : option NpcManager) (st : store) (user_id : Z)
    (o sc ov : list (pystr * json)) :
  st !! user_id = Some (JObj o) ->
  o <> [] ->
  dict_get o (u "scenario") = Some (JObj sc) ->
  dict_get sc (u "overview") = Some (JObj ov) ->
  (forall k, In k required_overview_fields ->
             exists v, dict_get ov k = Some v /\ truthy v = true) ->
  is_stage_complete m st user_id (value OVERVIEW) = Val true.
Proof.
  intros Hst Ho Hsc Hov H.
  unfold is_stage_complete.
  rewrite (load_scenario_some _ _ _ Hst).
  apply truthy_obj in Ho. rewrite Ho. simpl negb. cbv iota.
  rewrite (py_get_some _ _ _ _ Hsc), bind_val, str_eqb_refl.
  rewrite (py_get_some _ _ _ _ Hov), bind_val.
  rewrite !py_get_dict, !bind_val.
  destruct (H (u "theme")) as (v1 & -> & T1); [simpl; tauto|].
  destruct (H (u "setting")) as (v2 & -> & T2); [simpl; tauto|].
  destruct (H (u "main_conflict")) as (v3 & -> & T3); [simpl; tauto|].
  destruct (H (u "objective")) as (v4 & -> & T4); [simpl; tauto|].
  simpl. by rewrite T1, T2, T3, T4.
Qed.

(** The first overview update of a user without a record creates the
    record; when it carries the four required fields with truthy values
    the Overview stage is complete at once, and setting the stage to the
    successor of Overview makes the current stage Episodes. *)
Theorem first_overview_update_completes_stage (e e' : env) (m : option NpcManager)
    (st : store) (user_id : Z) (overview_data : list (pystr * json)) :
  st !! user_id = None ->
  NoDup (map fst overview_data) ->
  disk_ok e = true -> disk_ok e' = true ->
  (forall k, In k required_overview_fields ->
             exists v, dict_get overview_data k = Some v /\ truthy v = true) ->
  exists st1 st2 : store,
    update_scenario_overview e st user_id overview_data = Val st1
    /\ is_stage_complete m st1 user_id (value OVERVIEW) = Val true
    /\ set_current_stage e' st1 user_id (get_next_stage (value OVERVIEW)) = Val st2
    /\ get_current_stage st2 user_id = Val (JStr (value EPISODES)).
Proof.
  intros Hst Hnd Hok Hok' Hfields.
  destruct (init_record_shape e user_id Hok) as (o & sc & ov & Hrec & Ho & Hsc & Hov).
  unfold update_scenario_overview.
  rewrite (load_scenario_none _ _ Hst). cbn [truthy].
  rewrite (init_scenario_creation_stores e st user_id Hok), Hrec.
  rewrite (update_scenario_overview_tail e _ user_id overview_data o sc ov Hok Hsc Hov).
  set (sc' := dict_set sc (u "overview") (JObj (dict_update ov overview_data))).
  set (r := dict_set (dict_set (dict_set o (u "scenario") (JObj sc')) _ _) _ _).
  set (st1 := <[user_id := JObj r]> _).
  assert (Hst1 : st1 !! user_id = Some (JObj r)) by apply lookup_insert_eq.
  assert (Hr : r <> []) by apply dict_set_nonempty.
  assert (Hsc' : dict_get r (u "scenario") = Some (JObj sc')).
  { subst r.
    rewrite (dict_get_set_ne _ (u "last_updated") (u "scenario"))
      by (intros H; by vm_compute in H).
    rewrite (dict_get_set_ne _ (u "progress") (u "scenario"))
      by (intros H; by vm_compute in H).
    apply dict_get_set_eq. }
  assert (Hov' : dict_get sc' (u "overview") = Some (JObj (dict_update ov overview_data)))
    by apply dict_get_set_eq.
  destruct (set_current_stage_on_record e' st1 user_id (get_next_stage (value OVERVIEW))
              r Hst1 Hr Hok') as (st2 & Hset & Hget & _).
  exists st1, st2. split; [reflexivity|]. split; [|split; [exact Hset | exact Hget]].
  apply (overview_complete_when_four m st1 user_id r sc' _ Hst1 Hr Hsc' Hov').
  intros k Hk. destruct (Hfields k Hk) as (v & Hv & Tv).
  exists v. split; [|exact Tv]. by rewrite (dict_get_update _ Hnd), Hv.
Qed.

Lemma first_overview_update_completes_stage_witness :
  exists st1 st2 : store,
    update_scenario_overview clock0 ∅ 99999 mystery_overview = Val st1
    /\ is_stage_complete None st1 99999 (value OVERVIEW) = Val true
    /\ set_current_stage clock0 st1 99999 (get_next_stage (value OVERVIEW)) = Val st2
    /\ get_current_stage st2 99999 = Val (JStr (value EPISODES)).
Proof.
  apply (first_overview_update_completes_stage clock0 clock0 None ∅ 99999 mystery_overview).
  - apply lookup_empty.
  - apply (bool_decide_unpack _). vm_compute. reflexivity.
  - reflexivity.
  - reflexivity.
  - intros k [<-|[<-|[<-|[<-|[]]]]]; eexists; (split; [vm_compute; reflexivity | reflexivity]).
Defined.

End StageFacts.

(** ** Episode progress *)

Module EpisodeFacts.
Import ScenarioManager.
Import ScenarioStage.
Import StageSpec.
Import EpisodeSpec.
Import StageModel.

Section Advance.

Variable py_str : json -> pystr.

Lemma episode_keys_length (i : Z) (eps : list (list (pystr * json))) :
  length (episode_keys py_str i eps) = length eps.
Proof. revert i. induction eps as [|ep eps IH]; intros i; simpl; [done|]. by rewrite IH. Qed.

Lemma episode_keys_lookup (eps : list (list (pystr * json))) :
  forall (i : Z) (n : nat) (key : pystr),
    episode_keys py_str i eps !! n = Some key ->
    exists episode,
      eps !! n = Some episode
      /\ key = episode_key py_str
                 (from_option id (JNum (i + Z.of_nat n + 1)) (dict_get episode (u "id"))).
Proof.
  induction eps as [|ep eps IH]; intros i n key H; [done|].
  destruct n as [|n]; cbn [episode_keys] in H.
  - injection H as <-. exists ep. split; [done|]. do 3 f_equal. lia.
  - destruct (IH (i + 1) n key H) as (episode & Hep & ->).
    exists episode. split; [done|]. do 3 f_equal. lia.
Qed.

Section Loop.

Variable episode_progress : list (pystr * json).
Hypothesis Hdicts : entries_are_dicts episode_progress.

(** An episode that is not being played is passed over. *)
Lemma not_running_step (key : pystr) (found next : res (json * Z)) :
  running episode_progress key = false ->
  (progress ← py_get (JObj episode_progress) key (JObj []);
   status ← py_get progress (u "status") JNull;
   if is_str status (u "진행중") then found else next) = next.
Proof.
  unfold running, status_of. rewrite py_get_dict, bind_val. cbv beta.
  destruct (dict_get episode_progress key) as [v|] eqn:E; cbn [from_option id].
  - destruct (Hdicts key v E) as [entry ->].
    rewrite py_get_dict, bind_val. cbv beta.
    destruct (dict_get entry (u "status")) as [status|]; cbn [from_option id].
    + by intros ->.
    + done.
  - intros _. by rewrite py_get_dict, bind_val.
Qed.

Lemma mark_running_complete_finds (eps : list (list (pystr * json))) :
  forall (i : Z) (n : nat) (key : pystr) (entry : list (pystr * json)),
    episode_keys py_str i eps !! n = Some key ->
    dict_get episode_progress key = Some (JObj entry) ->
    running episode_progress key = true ->
    (forall (j : nat) (k : pystr),
        (j < n)%nat -> episode_keys py_str i eps !! j = Some k ->
        running episode_progress k = false) ->
    mark_running_complete py_str (map JObj eps) i (JObj episode_progress)
    = Val (JObj (dict_set episode_progress key
                   (JObj (dict_set entry (u "status") (JStr (u "완료"))))),
           i + Z.of_nat n).
Proof.
  induction eps as [|ep eps IH]; intros i n key entry Hkey Hentry Hrun Hbefore; [done|].
  cbn [map mark_running_complete].
  rewrite py_get_dict, bind_val. cbv beta zeta.
  destruct n as [|n].
  - cbn [episode_keys] in Hkey. injection Hkey as Hkey. rewrite Hkey.
    rewrite (py_get_some _ _ _ _ Hentry), bind_val. cbv beta.
    unfold running, status_of in Hrun. rewrite Hentry in Hrun.
    rewrite py_get_dict, bind_val. cbv beta.
    destruct (dict_get entry (u "status")) as [status|]; [|done].
    cbn [from_option id]. rewrite Hrun.
    rewrite (py_index_some _ _ _ Hentry), bind_val. cbv beta.
    unfold py_setitem. rewrite !bind_val. do 2 f_equal. lia.
  - rewrite not_running_step.
    + rewrite (IH (i + 1) n key entry); [do 2 f_equal; lia | exact Hkey | done | done |].
      intros j k Hj Hk. apply (Hbefore (S j) k); [lia | exact Hk].
    + apply (Hbefore 0%nat); [lia | reflexivity].
Qed.

End Loop.

(** Without any progress entry the loop finds no episode, or stops at an
    episode that is not a dict. *)
Lemma mark_running_complete_empty (elements : list json) :
  forall i : Z,
    mark_running_complete py_str elements i (JObj []) = Val (JObj [], -1)
    \/ exists x, mark_running_complete py_str elements i (JObj []) = Raise x.
Proof.
  induction elements as [|episode elements IH]; intros i; [by left|].
  cbn [mark_running_complete].
  destruct (py_get episode (u "id") (JNum (i + 1))) as [id_|x]; [|right; by exists x].
  rewrite bind_val. apply IH.
Qed.

(** What the method does once the loop has found the running episode at
    position [n]. *)
Lemma advance_to_next_episode_found (e : env) (st : store) (user_id : Z)
    (o sc progress entry : list (pystr * json)) (eps : list (list (pystr * json)))
    (n : nat) (key : pystr) :
  st !! user_id = Some (JObj o) -> o <> [] ->
  dict_get o (u "scenario") = Some (JObj sc) ->
  dict_get sc (u "episodes") = Some (JArr (map JObj eps)) ->
  dict_get o (u "episode_progress") = Some (JObj progress) ->
  entries_are_dicts progress ->
  episode_keys py_str 0 eps !! n = Some key ->
  dict_get progress key = Some (JObj entry) ->
  running progress key = true ->
  (forall (j : nat) (k : pystr),
      (j < n)%nat -> episode_keys py_str 0 eps !! j = Some k -> running progress k = false) ->
  advance_to_next_episode py_str e st user_id
  = match episode_keys py_str 0 eps !! S n with
    | Some next_key =>
        ((save_scenario e st user_id
            (JObj (dict_set o (u "episode_progress")
                     (JObj (dict_set
                              (dict_set progress key
                                 (JObj (dict_set entry (u "status") (JStr (u "완료")))))
                              next_key (started_entry e)))))).1.1,
         true)
    | None => (st, false)
    end.
Proof.
  intros Hst Ho Hsc Heps Hprog Hdicts Hkey Hentry Hrun Hbefore.
  unfold advance_to_next_episode.
  rewrite (load_scenario_some _ _ _ Hst).
  apply truthy_obj in Ho. rewrite Ho. cbn [negb].
  rewrite (py_get_some _ _ _ _ Hsc), bind_val.
  rewrite (py_get_some _ _ _ _ Heps), bind_val.
  assert (Hlen : (n < length eps)%nat).
  { rewrite <- (episode_keys_length 0 eps). by apply lookup_lt_Some in Hkey. }
  assert (Htruthy : truthy (JArr (map JObj eps)) = true).
  { cbn [truthy]. rewrite length_map. apply negb_true_iff, bool_decide_eq_false. lia. }
  rewrite Htruthy. cbn [negb].
  rewrite Hprog, bind_val, (py_index_some _ _ _ Hprog), bind_val.
  cbn [py_elements]. rewrite bind_val.
  rewrite (mark_running_complete_finds progress Hdicts eps 0 n key entry
             Hkey Hentry Hrun Hbefore), bind_val.
  cbv beta iota. rewrite length_map.
  assert (H0 : (0 <=? 0 + Z.of_nat n) = true) by (apply Z.leb_le; lia).
  rewrite H0. cbn [andb].
  destruct (episode_keys py_str 0 eps !! S n) as [next_key|] eqn:Hnext.
  - destruct (episode_keys_lookup eps 0 (S n) next_key Hnext) as (next & Hnth & Hnk).
    assert (H1 : (0 + Z.of_nat n + 1 <? Z.of_nat (length eps)) = true).
    { apply Z.ltb_lt. apply lookup_lt_Some in Hnth. lia. }
    rewrite H1.
    replace (Z.to_nat (0 + Z.of_nat n + 1)) with (S n) by lia.
    rewrite list_lookup_fmap, Hnth. cbn [fmap option_fmap option_map].
    rewrite bind_val. unfold py_get. rewrite bind_val.
    replace (0 + Z.of_nat n + 2) with (0 + Z.of_nat (S n) + 1) by lia.
    rewrite <- Hnk. unfold py_setitem. by rewrite !bind_val.
  - assert (H1 : (0 + Z.of_nat n + 1 <? Z.of_nat (length eps)) = false).
    { apply Z.ltb_ge. apply lookup_ge_None in Hnext.
      rewrite episode_keys_length in Hnext. lia. }
    by rewrite H1.
Qed.

(** Advancing moves the in-progress mark one episode on.  On a stored
    record whose first running episode has a successor in the list, the
    call returns [True]; afterwards the running episode is recorded as
    completed, the successor as in progress with a round count of zero,
    every other progress entry is as before and so is the scenario. *)
Theorem advance_to_next_episode_moves_on (e : env) (st : store) (user_id : Z)
    (o sc progress entry : list (pystr * json)) (eps : list (list (pystr * json)))
    (n : nat) (key next_key : pystr) :
  st !! user_id = Some (JObj o) -> o <> [] ->
  dict_get o (u "scenario") = Some (JObj sc) ->
  dict_get sc (u "episodes") = Some (JArr (map JObj eps)) ->
  dict_get o (u "episode_progress") = Some (JObj progress) ->
  entries_are_dicts progress ->
  episode_keys py_str 0 eps !! n = Some key ->
  episode_keys py_str 0 eps !! S n = Some next_key ->
  key <> next_key ->
  dict_get progress key = Some (JObj entry) ->
  running progress key = true ->
  (forall (j : nat) (k : pystr),
      (j < n)%nat -> episode_keys py_str 0 eps !! j = Some k -> running progress k = false) ->
  disk_ok e = true ->
  exists st' : store,
    advance_to_next_episode py_str e st user_id = (st', true)
    /\ status_of (stored_progress st' user_id) key = Some (JStr (u "완료"))
    /\ dict_get (stored_progress st' user_id) next_key = Some (started_entry e)
    /\ (forall k, k <> key -> k <> next_key ->
          dict_get (stored_progress st' user_id) k = dict_get progress k)
    /\ stored_scenario st' user_id = stored_scenario st user_id.
Proof.
  intros Hst Ho Hsc Heps Hprog Hdicts Hkey Hnext Hne Hentry Hrun Hbefore Hok.
  rewrite (advance_to_next_episode_found e st user_id o sc progress entry eps n key
             Hst Ho Hsc Heps Hprog Hdicts Hkey Hentry Hrun Hbefore), Hnext.
  rewrite save_scenario_dict by done. cbn [fst].
  eexists. split; [reflexivity|].
  assert (Hp : forall X,
             dict_get (dict_set (dict_set o (u "episode_progress") X)
                         (u "last_updated") (JStr (now e))) (u "episode_progress")
             = Some X).
  { intros X. rewrite dict_get_set_ne by (intros H; by vm_compute in H).
    apply dict_get_set_eq. }
  unfold stored_progress, status_of, stored_scenario.
  rewrite !load_scenario_insert, (load_scenario_some _ _ _ Hst), !Hp.
  split; [|split; [|split]].
  - rewrite dict_get_set_ne by (intros H; by apply Hne).
    rewrite dict_get_set_eq. apply dict_get_set_eq.
  - apply dict_get_set_eq.
  - intros k Hk Hk'. by rewrite !dict_get_set_ne by (intros H; by subst).
  - rewrite Hsc.
    rewrite dict_get_set_ne by (intros H; by vm_compute in H).
    rewrite dict_get_set_ne by (intros H; by vm_compute in H).
    by rewrite Hsc.
Qed.

(** The completion of the last episode is never stored.  When the running
    episode is the last of the list the call marks it completed in the
    loaded record only: it returns [False] and the stored files are as
    before, so the episode is still in progress at the next call. *)
Theorem advance_to_next_episode_at_last_episode (e : env) (st : store) (user_id : Z)
    (o sc progress entry : list (pystr * json)) (eps : list (list (pystr * json)))
    (n : nat) (key : pystr) :
  st !! user_id = Some (JObj o) -> o <> [] ->
  dict_get o (u "scenario") = Some (JObj sc) ->
  dict_get sc (u "episodes") = Some (JArr (map JObj eps)) ->
  dict_get o (u "episode_progress") = Some (JObj progress) ->
  entries_are_dicts progress ->
  length eps = S n ->
  episode_keys py_str 0 eps !! n = Some key ->
  dict_get progress key = Some (JObj entry) ->
  running progress key = true ->
  (forall (j : nat) (k : pystr),
      (j < n)%nat -> episode_keys py_str 0 eps !! j = Some k -> running progress k = false) ->
  advance_to_next_episode py_str e st user_id = (st, false).
Proof.
  intros Hst Ho Hsc Heps Hprog Hdicts Hlen Hkey Hentry Hrun Hbefore.
  rewrite (advance_to_next_episode_found e st user_id o sc progress entry eps n key
             Hst Ho Hsc Heps Hprog Hdicts Hkey Hentry Hrun Hbefore).
  assert (Hnone : episode_keys py_str 0 eps !! S n = None).
  { apply lookup_ge_None. rewrite episode_keys_length. lia. }
  by rewrite Hnone.
Qed.

(** A record that has no [episode_progress] yet cannot be advanced: the
    call returns [False] and stores nothing, whatever episodes the record
    holds. *)
Theorem advance_to_next_episode_needs_a_running_episode (e : env) (st : store)
    (user_id : Z) (o : list (pystr * json)) :
  st !! user_id = Some (JObj o) ->
  dict_get o (u "episode_progress") = None ->
  advance_to_next_episode py_str e st user_id = (st, false).
Proof.
  intros Hst Hnone.
  unfold advance_to_next_episode.
  rewrite (load_scenario_some _ _ _ Hst).
  destruct (negb (truthy (JObj o))); [done|].
  rewrite py_get_dict, bind_val. cbv beta.
  destruct (py_get _ (u "episodes") (JArr [])) as [episodes|x]; [|done].
  rewrite bind_val. cbv beta.
  destruct (negb (truthy episodes)); [done|].
  rewrite Hnone, bind_val. cbv beta.
  rewrite (py_index_some _ _ _ (dict_get_set_eq o (u "episode_progress") (JObj []))), bind_val.
  cbv beta.
  destruct (py_elements episodes) as [elements|x]; [|done].
  rewrite bind_val. cbv beta.
  destruct (mark_running_complete_empty elements 0) as [-> | [x ->]]; [|done].
  by rewrite bind_val.
Qed.

End Advance.

Lemma entries_are_dicts_example (statuses : list (pystr * pystr)) :
  entries_are_dicts (map (fun kv => (kv.1, entry_with_status kv.2)) statuses).
Proof.
  intros k v. unfold dict_get.
  induction statuses as [|[k' s] statuses IH]; [done|].
  cbn [map assoc fst snd].
  destruct (str_eqb k' k); [|exact IH].
  intros [= <-]. by eexists.
Qed.

Lemma advance_to_next_episode_moves_on_witness :
  exists st' : store,
    advance_to_next_episode str_scalar clock0 store_first_running 99999 = (st', true)
    /\ status_of (stored_progress st' 99999) (u "episode_1") = Some (JStr (u "완료"))
    /\ dict_get (stored_progress st' 99999) (u "episode_2") = Some (started_entry clock0)
    /\ (forall k, k <> u "episode_1" -> k <> u "episode_2" ->
          dict_get (stored_progress st' 99999) k
          = dict_get [(u "episode_1", entry_with_status (u "진행중"))] k)
    /\ stored_scenario st' 99999 = stored_scenario store_first_running 99999.
Proof.
  apply (advance_to_next_episode_moves_on str_scalar clock0 store_first_running 99999
           (match load_scenario store_first_running 99999 with JObj o => o | _ => [] end)
           (stored_scenario store_first_running 99999)
           [(u "episode_1", entry_with_status (u "진행중"))]
           [(u "status", JStr (u "진행중"))]
           [ [(u "title", JStr (u "실종")); (u "id", JNum 1)];
             [(u "title", JStr (u "추적")); (u "id", JNum 2)];
             [(u "title", JStr (u "대결")); (u "id", JNum 3)] ]
           0%nat (u "episode_1") (u "episode_2")).
  - vm_compute; reflexivity.
  - vm_compute; discriminate.
  - vm_compute; reflexivity.
  - vm_compute; reflexivity.
  - vm_compute; reflexivity.
  - apply (entries_are_dicts_example [(u "episode_1", u "진행중")]).
  - vm_compute; reflexivity.
  - vm_compute; reflexivity.
  - vm_compute; discriminate.
  - vm_compute; reflexivity.
  - vm_compute; reflexivity.
  - intros j k Hj; lia.
  - reflexivity.
Defined.

Lemma advance_to_next_episode_at_last_episode_witness :
  advance_to_next_episode str_scalar clock0 store_last_running 99999
  = (store_last_running, false).
Proof.
  apply (advance_to_next_episode_at_last_episode str_scalar clock0 store_last_running 99999
           (match load_scenario store_last_running 99999 with JObj o => o | _ => [] end)
           (stored_scenario store_last_running 99999)
           (stored_progress store_last_running 99999)
           [(u "status", JStr (u "진행중"))]
           [ [(u "title", JStr (u "실종")); (u "id", JNum 1)];
             [(u "title", JStr (u "추적")); (u "id", JNum 2)];
             [(u "title", JStr (u "대결")); (u "id", JNum 3)] ]
           2%nat (u "episode_3")).
  - vm_compute; reflexivity.
  - vm_compute; discriminate.
  - vm_compute; reflexivity.
  - vm_compute; reflexivity.
  - vm_compute; reflexivity.
  - apply (entries_are_dicts_example
             [(u "episode_1", u "완료"); (u "episode_2", u "완료"); (u "episode_3", u "진행중")]).
  - reflexivity.
  - vm_compute; reflexivity.
  - vm_compute; reflexivity.
  - vm_compute; reflexivity.
  - intros [|[|j]] k Hj Hk; [| |lia]; vm_compute in Hk; injection Hk as <-;
      vm_compute; reflexivity.
Defined.

Lemma advance_to_next_episode_needs_a_running_episode_witness :
  advance_to_next_episode str_scalar clock0 store_three_episodes 99999
  = (store_three_episodes, false).
Proof.
  apply (advance_to_next_episode_needs_a_running_episode str_scalar clock0
           store_three_episodes 99999
           (match load_scenario store_three_episodes 99999 with JObj o => o | _ => [] end)).
  - vm_compute; reflexivity.
  - vm_compute; reflexivity.
Defined.

End EpisodeFacts.
